(** * MongoManager: the connection-string builder and the client wrapper

    A shallow embedding of [src/system/databaseManager/MongoDB.js].

    - JavaScript strings are sequences of UTF-16 code units ([jsstring]).
    - The options the constructor reads hold primitive values: undefined,
      null, booleans and strings.  [tlsOptions] and [clientOptions] are
      absent or plain objects of such values, kept as association lists in
      the order in which [Object.keys] reports their keys.  Numbers,
      symbols and objects with methods of their own are left out.
    - [encodeURIComponent] and [decodeURIComponent] follow the abstract
      operations Encode and Decode of ECMA-262, URIError included.
    - Exceptions are values of [exn]; code that can throw returns a
      [result]; the methods of the class run in a state-and-exception monad
      over the instance fields.
    - The MongoDB driver is an interface ([Driver]). *)

From Stdlib Require Import List NArith ZArith Bool String Ascii Arith Lia.
Import ListNotations.

Local Open Scope N_scope.

(** ** Strings *)

(** A code unit is a number below 65536; a JavaScript string is a list of
    code units. *)
Definition jsstring := list N.

Definition is_code_unit (c : N) : Prop := c < 65536.

Definition lit (s : string) : jsstring :=
  map N_of_ascii (list_ascii_of_string s).

Definition jsstring_eqb (a b : jsstring) : bool :=
  if list_eq_dec N.eq_dec a b then true else false.

(** ** Exceptions and results *)

Inductive exn : Type :=
| URIError                  (* thrown by encodeURIComponent / decodeURIComponent *)
| TypeError                 (* reading a property of undefined *)
| DriverError (msg : jsstring) (* anything the driver throws *)
| Error (cause : exn).      (* [new Error(cause)], built by errorMessage *)

Inductive result (A : Type) : Type :=
| Ok (a : A)
| Throw (e : exn).
Arguments Ok {A} a.
Arguments Throw {A} e.

Definition bind {A B} (r : result A) (k : A -> result B) : result B :=
  match r with
  | Ok a => k a
  | Throw e => Throw e
  end.

Declare Scope js_scope.
Delimit Scope js_scope with js.
Notation "x <- c ;; k" := (bind c (fun x => k))
  (at level 61, c at next level, right associativity) : js_scope.
Notation "' p <- c ;; k" := (bind c (fun x => let p := x in k))
  (at level 61, p pattern, c at next level, right associativity) : js_scope.
Local Open Scope js_scope.

(** ** Primitive values *)

Inductive value : Type :=
| VUndefined
| VNull
| VBool (b : bool)
| VString (s : jsstring).

(** ToBoolean *)
Definition truthy (v : value) : bool :=
  match v with
  | VUndefined | VNull => false
  | VBool b => b
  | VString s => match s with [] => false | _ => true end
  end.

(** ToString *)
Definition ToString (v : value) : jsstring :=
  match v with
  | VUndefined => lit "undefined"
  | VNull => lit "null"
  | VBool true => lit "true"
  | VBool false => lit "false"
  | VString s => s
  end.

(** [typeof v === 'string'] *)
Definition typeof_string (v : value) : bool :=
  match v with VString _ => true | _ => false end.

(** [v === s] for a string [s] *)
Definition strict_eq_string (v : value) (s : jsstring) : bool :=
  match v with VString t => jsstring_eqb t s | _ => false end.

(** [v !== ''] *)
Definition not_empty_string (v : value) : bool :=
  negb (strict_eq_string v []).

(** [a || b] *)
Definition js_or (a b : value) : value := if truthy a then a else b.

(** ** Plain objects *)

Definition object := list (jsstring * value).

Definition Object_keys (o : object) : list jsstring := map fst o.

(** [o[k]] *)
Fixpoint Get (o : object) (k : jsstring) : value :=
  match o with
  | [] => VUndefined
  | (k', v) :: rest => if jsstring_eqb k' k then v else Get rest k
  end.

(** ** encodeURIComponent (ECMA-262, Encode) *)

Definition in_range (lo hi c : N) : bool := (lo <=? c) && (c <=? hi).

Definition isAlpha (c : N) : bool := in_range 65 90 c || in_range 97 122 c.
Definition isDigit (c : N) : bool := in_range 48 57 c.

(** - _ . ! ~ * ' ( ) *)
Definition isMark (c : N) : bool :=
  existsb (N.eqb c) [45; 95; 46; 33; 126; 42; 39; 40; 41].

Definition uriUnreserved (c : N) : bool := isAlpha c || isDigit c || isMark c.

Definition isLeadSurrogate (c : N) : bool := in_range 55296 56319 c.
Definition isTrailSurrogate (c : N) : bool := in_range 56320 57343 c.

(** UTF16SurrogatePairToCodePoint *)
Definition pairToCodePoint (lead trail : N) : N :=
  (lead - 55296) * 1024 + (trail - 56320) + 65536.

(** The UTF-8 octets of a code point. *)
Definition utf8 (cp : N) : list N :=
  if cp <? 128 then [cp]
  else if cp <? 2048 then [192 + cp / 64; 128 + cp mod 64]
  else if cp <? 65536 then
    [224 + cp / 4096; 128 + (cp / 64) mod 64; 128 + cp mod 64]
  else
    [240 + cp / 262144; 128 + (cp / 4096) mod 64;
     128 + (cp / 64) mod 64; 128 + cp mod 64].

Definition hexDigit (n : N) : N := if n <? 10 then 48 + n else 55 + n.

(** "%XX", upper-case hexadecimal *)
Definition pctOctet (b : N) : jsstring := [37; hexDigit (b / 16); hexDigit (b mod 16)].

Definition pctOctets (bs : list N) : jsstring := flat_map pctOctet bs.

Fixpoint Encode (s : jsstring) : result jsstring :=
  match s with
  | [] => Ok []
  | c :: t =>
      if uriUnreserved c then
        r <- Encode t ;; Ok (c :: r)
      else if isLeadSurrogate c then
        match t with
        | d :: t' =>
            if isTrailSurrogate d then
              r <- Encode t' ;; Ok (pctOctets (utf8 (pairToCodePoint c d)) ++ r)
            else Throw URIError
        | [] => Throw URIError
        end
      else if isTrailSurrogate c then Throw URIError
      else
        r <- Encode t ;; Ok (pctOctets (utf8 c) ++ r)
  end.

Definition encodeURIComponent (v : value) : result jsstring := Encode (ToString v).

(** ** decodeURIComponent (ECMA-262, Decode) *)

Definition hexValue (c : N) : option N :=
  if isDigit c then Some (c - 48)
  else if in_range 65 70 c then Some (c - 55)
  else if in_range 97 102 c then Some (c - 87)
  else None.

(** ParseHexOctet on the two code units after a percent sign; also returns
    what follows them. *)
Definition parseHexOctet (s : jsstring) : option (N * jsstring) :=
  match s with
  | h :: l :: rest =>
      match hexValue h, hexValue l with
      | Some a, Some b => Some (16 * a + b, rest)
      | _, _ => None
      end
  | _ => None
  end.

(** The number of leading 1 bits of an octet. *)
Definition leadingOnes (b : N) : nat :=
  if b <? 128 then 0%nat
  else if b <? 192 then 1%nat
  else if b <? 224 then 2%nat
  else if b <? 240 then 3%nat
  else if b <? 248 then 4%nat
  else 5%nat.

(** Reads [n] further groups "%XX". *)
Fixpoint continuation (n : nat) (s : jsstring) : option (list N * jsstring) :=
  match n with
  | O => Some ([], s)
  | S n' =>
      match s with
      | 37 :: t =>
          match parseHexOctet t with
          | Some (b, rest) =>
              match continuation n' rest with
              | Some (bs, rest') => Some (b :: bs, rest')
              | None => None
              end
          | None => None
          end
      | _ => None
      end
  end.

Definition isContinuation (b : N) : bool := in_range 128 191 b.

(** The code point of a multi-octet UTF-8 sequence; [None] unless the octets
    are the shortest encoding of a Unicode scalar value. *)
Definition utf8Decode (octets : list N) : option N :=
  match octets with
  | [b0; b1] =>
      let v := (b0 - 192) * 64 + (b1 - 128) in
      if isContinuation b1 && (128 <=? v) then Some v else None
  | [b0; b1; b2] =>
      let v := (b0 - 224) * 4096 + (b1 - 128) * 64 + (b2 - 128) in
      if isContinuation b1 && isContinuation b2 && (2048 <=? v)
         && negb (in_range 55296 57343 v)
      then Some v else None
  | [b0; b1; b2; b3] =>
      let v := (b0 - 240) * 262144 + (b1 - 128) * 4096 + (b2 - 128) * 64 + (b3 - 128) in
      if isContinuation b1 && isContinuation b2 && isContinuation b3
         && (65536 <=? v) && (v <=? 1114111)
      then Some v else None
  | _ => None
  end.

(** UTF16EncodeCodePoint *)
Definition UTF16EncodeCodePoint (cp : N) : jsstring :=
  if cp <=? 65535 then [cp]
  else [(cp - 65536) / 1024 + 55296; (cp - 65536) mod 1024 + 56320].

(** One turn of the loop of Decode: the code units produced and the rest of
    the input. *)
Definition decodeStep (c : N) (t : jsstring) : result (jsstring * jsstring) :=
  if c =? 37 then
    match parseHexOctet t with
    | None => Throw URIError
    | Some (b, t1) =>
        match leadingOnes b with
        | O => Ok ([b], t1)
        | S n =>
            if Nat.eqb n 0 || Nat.leb 4 n then Throw URIError
            else
              match continuation n t1 with
              | None => Throw URIError
              | Some (bs, t2) =>
                  match utf8Decode (b :: bs) with
                  | None => Throw URIError
                  | Some v => Ok (UTF16EncodeCodePoint v, t2)
                  end
              end
        end
    end
  else Ok ([c], t).

(** The loop of Decode; [None] when the fuel runs out. *)
Fixpoint Decode (fuel : nat) (s : jsstring) : option (result jsstring) :=
  match s with
  | [] => Some (Ok [])
  | c :: t =>
      match fuel with
      | O => None
      | S fuel' =>
          match decodeStep c t with
          | Throw e => Some (Throw e)
          | Ok (units, rest) =>
              match Decode fuel' rest with
              | Some (Ok r) => Some (Ok (units ++ r))
              | other => other
              end
          end
      end
  end.

(** Every turn consumes at least one code unit, so the length of the input
    is enough fuel ([Decode_fuel] below). *)
Definition decodeURIComponent (s : jsstring) : option (result jsstring) :=
  Decode (List.length s) s.

(** ** The constants of the wrapper

    [MongoDB.js] reads its literals from [./constants/constants], which is
    not among the sources at hand. *)

(** Modelled from the spec: the fields of [MONGOWRAPPER_CONSTANTS.STRINGS]
    whose text the spec shows in the segments it describes ("a colon
    separator", "@host/loginDatabase", "@host/?authSource=<authSource>",
    "&authMechanism=<value>", "&key=value"). *)
Module STRINGS.
Definition COLON : jsstring := lit ":".
Definition AT : jsstring := lit "@".
Definition SLASH : jsstring := lit "/".
Definition EQUAL_SIGN : jsstring := lit "=".
Definition AND : jsstring := lit "&".
Module CLIENT_PARAMETERS.
Definition BEGINNING_STRING : jsstring := lit "/?".
Definition AUTH_SOURCE : jsstring := lit "authSource".
Definition AUTH_MECHANISM : jsstring := lit "authMechanism".
End CLIENT_PARAMETERS.
End STRINGS.

(** Modelled from the spec: the recognised mechanism names of
    [MONGOWRAPPER_CONSTANTS.AUTH_METHODS] on which the spec and the
    constructor's documentation agree. *)
Module AUTH_METHODS.
Definition DEFAULT : jsstring := lit "DEFAULT".
Definition SCRAM_256 : jsstring := lit "SCRAM-SHA-256".
Definition SCRAM_1 : jsstring := lit "SCRAM-SHA-1".
End AUTH_METHODS.

(** The literals no text fixes: the two scheme prefixes and the name of the
    certificate mechanism stay parameters. *)
Class Constants : Type := {
  MONGOSERVER : jsstring;
  MONGOSERVER_SVR : jsstring;
  AUTH_METHODS_TLS : jsstring
}.

(** The usual values, for concrete runs. *)
Definition mongodb_constants : Constants := {|
  MONGOSERVER := lit "mongodb://";
  MONGOSERVER_SVR := lit "mongodb+srv://";
  AUTH_METHODS_TLS := lit "MONGODB-X509"
|}.

(** ** The driver

    What the wrapper uses of the [mongodb] package.  [new MongoClient(uri)]
    only records the URI, as in the 3.6 API the file points to; the
    connection string is parsed when connecting.  [close] and [connect]
    change the client they are called on; every other operation either
    returns or throws.  [closeConnection] does not await the promise that
    [close] returns, so [client_close] stands for the synchronous part of
    the call: only a synchronous throw can reach the caller. *)
Class Driver : Type := {
  Client : Type;
  Db : Type;
  Collection : Type;
  MongoClient : jsstring -> Client;                      (* new MongoClient(uri) *)
  client_connect : Client -> result unit * Client;       (* await client.connect() *)
  client_close : Client -> result unit * Client;         (* client.close() *)
  client_db : Client -> jsstring -> result Db;           (* client.db(name) *)
  db_collection : Db -> jsstring -> result Collection    (* db.collection(name) *)
}.

(** A driver whose client only remembers whether it is connected, and whose
    operations never throw. *)
Definition flagDriver : Driver := {|
  Client := bool;
  Db := jsstring;
  Collection := jsstring * jsstring;
  MongoClient := fun _ => false;
  client_connect := fun _ => (Ok tt, true);
  client_close := fun _ => (Ok tt, false);
  client_db := fun _ name => Ok name;
  db_collection := fun db name => Ok (db, name)
|}.

(** ** The options of the constructor *)

Module Options.
Record t : Type := {
  connectionUri : value;
  username : value;
  password : value;
  host : value;
  loginDatabase : value;
  authSource : value;
  svrString : value;
  authMechanism : value;
  tlsOptions : option object;
  clientOptions : option object
}.

(** [{}] *)
Definition empty : t := {|
  connectionUri := VUndefined; username := VUndefined; password := VUndefined;
  host := VUndefined; loginDatabase := VUndefined; authSource := VUndefined;
  svrString := VUndefined; authMechanism := VUndefined;
  tlsOptions := None; clientOptions := None
|}.

(** Functional updates, to write configurations field by field. *)
Definition set_connectionUri (v : value) (o : t) : t :=
  {| connectionUri := v; username := username o; password := password o;
     host := host o; loginDatabase := loginDatabase o; authSource := authSource o;
     svrString := svrString o; authMechanism := authMechanism o;
     tlsOptions := tlsOptions o; clientOptions := clientOptions o |}.
Definition set_username (v : value) (o : t) : t :=
  {| connectionUri := connectionUri o; username := v; password := password o;
     host := host o; loginDatabase := loginDatabase o; authSource := authSource o;
     svrString := svrString o; authMechanism := authMechanism o;
     tlsOptions := tlsOptions o; clientOptions := clientOptions o |}.
Definition set_password (v : value) (o : t) : t :=
  {| connectionUri := connectionUri o; username := username o; password := v;
     host := host o; loginDatabase := loginDatabase o; authSource := authSource o;
     svrString := svrString o; authMechanism := authMechanism o;
     tlsOptions := tlsOptions o; clientOptions := clientOptions o |}.
Definition set_host (v : value) (o : t) : t :=
  {| connectionUri := connectionUri o; username := username o; password := password o;
     host := v; loginDatabase := loginDatabase o; authSource := authSource o;
     svrString := svrString o; authMechanism := authMechanism o;
     tlsOptions := tlsOptions o; clientOptions := clientOptions o |}.
Definition set_loginDatabase (v : value) (o : t) : t :=
  {| connectionUri := connectionUri o; username := username o; password := password o;
     host := host o; loginDatabase := v; authSource := authSource o;
     svrString := svrString o; authMechanism := authMechanism o;
     tlsOptions := tlsOptions o; clientOptions := clientOptions o |}.
Definition set_authSource (v : value) (o : t) : t :=
  {| connectionUri := connectionUri o; username := username o; password := password o;
     host := host o; loginDatabase := loginDatabase o; authSource := v;
     svrString := svrString o; authMechanism := authMechanism o;
     tlsOptions := tlsOptions o; clientOptions := clientOptions o |}.
Definition set_svrString (v : value) (o : t) : t :=
  {| connectionUri := connectionUri o; username := username o; password := password o;
     host := host o; loginDatabase := loginDatabase o; authSource := authSource o;
     svrString := v; authMechanism := authMechanism o;
     tlsOptions := tlsOptions o; clientOptions := clientOptions o |}.
Definition set_authMechanism (v : value) (o : t) : t :=
  {| connectionUri := connectionUri o; username := username o; password := password o;
     host := host o; loginDatabase := loginDatabase o; authSource := authSource o;
     svrString := svrString o; authMechanism := v;
     tlsOptions := tlsOptions o; clientOptions := clientOptions o |}.
Definition set_tlsOptions (v : option object) (o : t) : t :=
  {| connectionUri := connectionUri o; username := username o; password := password o;
     host := host o; loginDatabase := loginDatabase o; authSource := authSource o;
     svrString := svrString o; authMechanism := authMechanism o;
     tlsOptions := v; clientOptions := clientOptions o |}.
Definition set_clientOptions (v : option object) (o : t) : t :=
  {| connectionUri := connectionUri o; username := username o; password := password o;
     host := host o; loginDatabase := loginDatabase o; authSource := authSource o;
     svrString := svrString o; authMechanism := authMechanism o;
     tlsOptions := tlsOptions o; clientOptions := v |}.
End Options.

(** ** The class *)

Section MongoManager.
Context {K : Constants} {D : Driver}.

Import STRINGS.

Record MongoManager : Type := {
  connectionUri : jsstring;
  _client : Client;
  _database : option Db;
  _collection : option Collection
}.

(** *** The constructor, block by block *)

(** Lines 56-60: the scheme prefix and the encoded user name. *)
Definition connectionBase (options : Options.t) (username : jsstring) : jsstring :=
  if truthy (Options.svrString options)
  then MONGOSERVER_SVR ++ username
  else MONGOSERVER ++ username.

(** Lines 63-65, "Add password if needed". *)
Definition addPassword (password : value) (uri : jsstring) : result jsstring :=
  if truthy password then
    p <- encodeURIComponent password ;;
    Ok (uri ++ COLON ++ p)
  else Ok uri.

(** Lines 68-80, "Add connection validation source". *)
Definition addValidationSource (host loginDatabase authSource : value)
    (uri : jsstring) : jsstring :=
  if truthy loginDatabase && not_empty_string loginDatabase then
    uri ++ AT ++ ToString host ++ SLASH ++ ToString loginDatabase
  else if truthy authSource && not_empty_string authSource then
    uri ++ AT ++ ToString host
        ++ CLIENT_PARAMETERS.BEGINNING_STRING
        ++ CLIENT_PARAMETERS.AUTH_SOURCE
        ++ EQUAL_SIGN
        ++ ToString authSource
  else uri.

(** Lines 92-106: the loop over the keys of [tlsOptions]. *)
Fixpoint tlsLoop (tlsOptions : object) (keys : list jsstring)
    (clientOptions : jsstring) : result jsstring :=
  match keys with
  | [] => Ok clientOptions
  | tlsOptionKey :: keys' =>
      let v := Get tlsOptions tlsOptionKey in
      if typeof_string v then
        e <- encodeURIComponent v ;;
        tlsLoop tlsOptions keys'
          (clientOptions ++ AND ++ tlsOptionKey ++ EQUAL_SIGN ++ e)
      else
        tlsLoop tlsOptions keys'
          (clientOptions ++ AND ++ tlsOptionKey ++ EQUAL_SIGN ++ ToString v)
  end.

(** Lines 82-120: from the URI and the option text so far to the two
    after the block. *)
Definition addAuthMechanism (options : Options.t) (uri clientOptions : jsstring)
    : result (jsstring * jsstring) :=
  if truthy (Options.authMechanism options) then
    let authMechanism := AND ++ CLIENT_PARAMETERS.AUTH_MECHANISM ++ EQUAL_SIGN in
    match Options.tlsOptions options with
    | Some tlsOptions =>
        clientOptions' <- tlsLoop tlsOptions (Object_keys tlsOptions) clientOptions ;;
        m <- encodeURIComponent (Options.authMechanism options) ;;
        Ok (uri ++ authMechanism ++ m, clientOptions')
    | None =>
        if strict_eq_string (Options.authMechanism options) AUTH_METHODS.DEFAULT
           || strict_eq_string (Options.authMechanism options) AUTH_METHODS.SCRAM_256
           || strict_eq_string (Options.authMechanism options) AUTH_METHODS.SCRAM_1
           || strict_eq_string (Options.authMechanism options) AUTH_METHODS_TLS
        then Ok (uri ++ authMechanism ++ ToString (Options.authMechanism options),
                 clientOptions)
        else Ok (uri ++ authMechanism ++ AUTH_METHODS.DEFAULT, clientOptions)
    end
  else Ok (uri ++ clientOptions, clientOptions).

(** Lines 125-130: the loop over the keys of [clientOptions]. *)
Fixpoint clientLoop (obj : object) (keys : list jsstring)
    (clientOptions : jsstring) : jsstring :=
  match keys with
  | [] => clientOptions
  | clientOptionKey :: keys' =>
      clientLoop obj keys'
        (clientOptions ++ AND ++ clientOptionKey ++ EQUAL_SIGN
           ++ ToString (Get obj clientOptionKey))
  end.

(** Lines 124-131, "Add options for the client". *)
Definition addClientOptions (options : Options.t) (clientOptions : jsstring)
    : jsstring :=
  match Options.clientOptions options with
  | Some obj => clientLoop obj (Object_keys obj) clientOptions
  | None => clientOptions
  end.

(** Lines 48-133: the else branch, which derives the URI. *)
Definition deriveUri (options : Options.t) : result jsstring :=
  username <- encodeURIComponent (Options.username options) ;;
  let password := js_or (Options.password options) (VBool false) in
  let host := Options.host options in
  let loginDatabase := Options.loginDatabase options in
  let authSource := Options.authSource options in
  let clientOptions := [] in
  let uri := connectionBase options username in
  uri <- addPassword password uri ;;
  let uri := addValidationSource host loginDatabase authSource uri in
  ' (uri, clientOptions) <- addAuthMechanism options uri clientOptions ;;
  let clientOptions := addClientOptions options clientOptions in
  Ok (uri ++ clientOptions).

(** Lines 45-46 and 136. *)
Definition buildUri (options : Options.t) : result jsstring :=
  if truthy (Options.connectionUri options)
     && typeof_string (Options.connectionUri options)
  then Ok (ToString (Options.connectionUri options))
  else deriveUri options.

Definition constructor (options : Options.t) : result MongoManager :=
  uri <- buildUri options ;;
  Ok {| connectionUri := uri;
        _client := MongoClient uri;
        _database := None;
        _collection := None |}.

(** *** The methods *)

(** A method: from the instance to what it returns or throws, and the
    instance afterwards. *)
Definition method (A : Type) : Type := MongoManager -> result A * MongoManager.

(** [errorMessage(error)]: [throw new Error(error)]. *)
Definition errorMessage {A} (error : exn) : method A :=
  fun this => (Throw (Error error), this).

(** [try { body } catch (error) { handler(error) }] *)
Definition try_catch {A} (body : method A) (handler : exn -> method A) : method A :=
  fun this =>
    match body this with
    | (Ok a, this') => (Ok a, this')
    | (Throw e, this') => handler e this'
    end.

(** [promise.catch(handler)], awaited *)
Definition promise_catch {A} (promise : method A) (handler : exn -> method A)
    : method A :=
  try_catch promise handler.

Definition set__client (c : Client) (this : MongoManager) : MongoManager :=
  {| connectionUri := connectionUri this; _client := c;
     _database := _database this; _collection := _collection this |}.

Definition set__database (d : Db) (this : MongoManager) : MongoManager :=
  {| connectionUri := connectionUri this; _client := _client this;
     _database := Some d; _collection := _collection this |}.

Definition set__collection (c : Collection) (this : MongoManager) : MongoManager :=
  {| connectionUri := connectionUri this; _client := _client this;
     _database := _database this; _collection := Some c |}.

(** [this._client.connect()] *)
Definition call_connect : method unit :=
  fun this =>
    let (r, c) := client_connect (_client this) in (r, set__client c this).

(** [this._client.close()] *)
Definition call_close : method unit :=
  fun this =>
    let (r, c) := client_close (_client this) in (r, set__client c this).

(** Lines 143-152. *)
Definition connect : method unit :=
  try_catch
    (promise_catch call_connect (fun error => errorMessage error))
    (fun error => errorMessage error).

(** Lines 181-188, [set database(databaseName)]. *)
Definition set_database (databaseName : jsstring) : method unit :=
  try_catch
    (fun this =>
       match client_db (_client this) databaseName with
       | Ok d => (Ok tt, set__database d this)
       | Throw e => (Throw e, this)
       end)
    (fun error => errorMessage error).

(** Lines 190-197, [set collection(collectionName)].  With [_database]
    undefined, [this._database.collection] throws a TypeError inside the
    [try]. *)
Definition set_collection (collectionName : jsstring) : method unit :=
  try_catch
    (fun this =>
       match _database this with
       | None => (Throw TypeError, this)
       | Some db =>
           match db_collection db collectionName with
           | Ok c => (Ok tt, set__collection c this)
           | Throw e => (Throw e, this)
           end
       end)
    (fun error => errorMessage error).

(** Lines 225-227. *)
Definition closeConnection : method unit := call_close.

End MongoManager.

(** ** The segments of a derived URI

    The constructor accumulates text in two variables.  The definitions
    below name, one by one, the pieces that end up in the URI; that the
    constructor concatenates exactly these is [deriveUri_segments]. *)

Section Segments.
Context {K : Constants}.

Import STRINGS.

(** The test of line 45. *)
Definition usesConnectionUri (o : Options.t) : bool :=
  truthy (Options.connectionUri o) && typeof_string (Options.connectionUri o).

Definition schemePrefix (o : Options.t) : jsstring :=
  if truthy (Options.svrString o) then MONGOSERVER_SVR else MONGOSERVER.

(** ":" and the encoded password, or nothing. *)
Definition passwordSegment (o : Options.t) : result jsstring :=
  if truthy (Options.password o) then
    p <- encodeURIComponent (Options.password o) ;; Ok (COLON ++ p)
  else Ok [].

(** "@host/loginDatabase", "@host/?authSource=...", or nothing. *)
Definition validationSegment (o : Options.t) : jsstring :=
  if truthy (Options.loginDatabase o) then
    AT ++ ToString (Options.host o) ++ SLASH ++ ToString (Options.loginDatabase o)
  else if truthy (Options.authSource o) then
    AT ++ ToString (Options.host o) ++ lit "/?authSource="
       ++ ToString (Options.authSource o)
  else [].

(** "&key=value" *)
Definition parameter (key value : jsstring) : jsstring :=
  AND ++ key ++ EQUAL_SIGN ++ value.

(** The value of a TLS option as it is written: strings encoded, anything
    else converted. *)
Definition tlsValue (v : value) : result jsstring :=
  if typeof_string v then encodeURIComponent v else Ok (ToString v).

Fixpoint tlsText (obj : object) (keys : list jsstring) : result jsstring :=
  match keys with
  | [] => Ok []
  | k :: keys' =>
      e <- tlsValue (Get obj k) ;;
      rest <- tlsText obj keys' ;;
      Ok (parameter k e ++ rest)
  end.

Definition clientText (obj : object) (keys : list jsstring) : jsstring :=
  flat_map (fun k => parameter k (ToString (Get obj k))) keys.

(** The mechanism name as it is written. *)
Definition mechanismValue (o : Options.t) : result jsstring :=
  match Options.tlsOptions o with
  | Some _ => encodeURIComponent (Options.authMechanism o)
  | None =>
      if strict_eq_string (Options.authMechanism o) AUTH_METHODS.DEFAULT
         || strict_eq_string (Options.authMechanism o) AUTH_METHODS.SCRAM_256
         || strict_eq_string (Options.authMechanism o) AUTH_METHODS.SCRAM_1
         || strict_eq_string (Options.authMechanism o) AUTH_METHODS_TLS
      then Ok (ToString (Options.authMechanism o))
      else Ok AUTH_METHODS.DEFAULT
  end.

(** "&authMechanism=...", or nothing. *)
Definition mechanismSegment (o : Options.t) : result jsstring :=
  if truthy (Options.authMechanism o) then
    m <- mechanismValue o ;; Ok (parameter CLIENT_PARAMETERS.AUTH_MECHANISM m)
  else Ok [].

(** The TLS parameters, written only when a mechanism is set. *)
Definition tlsSegment (o : Options.t) : result jsstring :=
  if truthy (Options.authMechanism o) then
    match Options.tlsOptions o with
    | Some obj => tlsText obj (Object_keys obj)
    | None => Ok []
    end
  else Ok [].

Definition clientSegment (o : Options.t) : jsstring :=
  match Options.clientOptions o with
  | Some obj => clientText obj (Object_keys obj)
  | None => []
  end.

(** The URI, segment by segment. *)
Definition segments (o : Options.t) : result jsstring :=
  u <- encodeURIComponent (Options.username o) ;;
  p <- passwordSegment o ;;
  t <- tlsSegment o ;;
  m <- mechanismSegment o ;;
  Ok (schemePrefix o ++ u ++ p ++ validationSegment o ++ m ++ t ++ clientSegment o).

End Segments.

(** ** Substrings *)

(** [p] occurs in [s]. *)
Definition occurs (p s : jsstring) : Prop :=
  exists pre post, s = pre ++ p ++ post.

(** An occurrence of [a] lies wholly before an occurrence of [b]. *)
Definition precedes (a b s : jsstring) : Prop :=
  exists pre mid post, s = pre ++ a ++ mid ++ b ++ post.

Fixpoint isPrefix (p s : jsstring) : bool :=
  match p, s with
  | [], _ => true
  | x :: p', y :: s' => (x =? y) && isPrefix p' s'
  | _ :: _, [] => false
  end.

Fixpoint occursb (p s : jsstring) : bool :=
  isPrefix p s ||
  match s with
  | [] => false
  | _ :: s' => occursb p s'
  end.

Fixpoint precedesb (a b s : jsstring) : bool :=
  (isPrefix a s && occursb b (skipn (List.length a) s)) ||
  match s with
  | [] => false
  | _ :: s' => precedesb a b s'
  end.

(** String.prototype.isWellFormed: no lone surrogate. *)
Fixpoint isWellFormed (s : jsstring) : bool :=
  match s with
  | [] => true
  | c :: t =>
      if isLeadSurrogate c then
        match t with
        | d :: t' => isTrailSurrogate d && isWellFormed t'
        | [] => false
        end
      else negb (isTrailSurrogate c) && isWellFormed t
  end.

(** The strings the constructor percent-encodes are all well formed. *)
Definition encodable (o : Options.t) : bool :=
  isWellFormed (ToString (Options.username o))
  && (if truthy (Options.password o)
      then isWellFormed (ToString (Options.password o)) else true)
  && (if truthy (Options.authMechanism o) then
        match Options.tlsOptions o with
        | Some obj =>
            forallb (fun k => isWellFormed (ToString (Get obj k))) (Object_keys obj)
            && isWellFormed (ToString (Options.authMechanism o))
        | None => true
        end
      else true).

(** A Unicode scalar value: a code point that is no surrogate. *)
Definition scalarValue (cp : N) : Prop :=
  cp < 1114112 /\ ~ (55296 <= cp <= 57343).

(** Text that is empty or begins with an ampersand. *)
Definition parameterText (x : jsstring) : Prop := x = [] \/ exists x', x = 38 :: x'.

(** The two parameter names looked for in a URI, each with its equals sign. *)
Definition authMechanism_equals : jsstring := lit "authMechanism=".
Definition authSource_equals : jsstring := lit "authSource=".

(** ** Sample configurations *)

Definition str (s : string) : value := VString (lit s).

(** [{username: 'bob', password: 'p@ss', host: 'h:27017'}] *)
Definition bob : Options.t :=
  Options.set_username (str "bob")
    (Options.set_password (str "p@ss")
       (Options.set_host (str "h:27017") Options.empty)).

(** [bob] with [loginDatabase: 'db1'] *)
Definition bob_db1 : Options.t := Options.set_loginDatabase (str "db1") bob.

(** [bob_db1] with [authMechanism: 'MONGODB-X509'], [tlsOptions: {tls: true,
    tlsCAFile: '/etc/ca.pem'}] and [clientOptions: {w: 'majority'}] *)
Definition bob_x509 : Options.t :=
  Options.set_authMechanism (str "MONGODB-X509")
    (Options.set_tlsOptions
       (Some [(lit "tls", VBool true); (lit "tlsCAFile", str "/etc/ca.pem")])
       (Options.set_clientOptions (Some [(lit "w", str "majority")]) bob_db1)).


(** [bob] with [loginDatabase: 'db1?authSource=admin'] *)
Definition bob_db1_admin : Options.t :=
  Options.set_loginDatabase (str "db1?authSource=admin") bob.

(** [bob_db1] with [clientOptions: {authMechanism: 'SCRAM-SHA-1'}] and no
    [authMechanism] *)
Definition bob_client_mechanism : Options.t :=
  Options.set_clientOptions (Some [(lit "authMechanism", str "SCRAM-SHA-1")]) bob_db1.

(** The instance a successful construction returns. *)
Definition instance_of {D : Driver} (uri : jsstring) : MongoManager :=
  {| connectionUri := uri; _client := MongoClient uri;
     _database := None; _collection := None |}.

(** A freshly built instance over [flagDriver]. *)
Definition fresh_instance : @MongoManager flagDriver :=
  instance_of (D := flagDriver) (lit "mongodb://bob@h/db1").

(** [n] calls of a method in a row: the instance after them. *)
Fixpoint after_calls {D : Driver} {A} (n : nat) (f : method A) (this : MongoManager)
  : MongoManager :=
  match n with
  | O => this
  | S n' => after_calls n' f (snd (f this))
  end.

(** ** The remaining methods *)

(** [await this._client.close()], as [updateConnectionString] calls it: there
    the promise is awaited, so the call ends with what the promise settles
    to, which the synchronous [client_close] does not tell. *)
Class AwaitedClose (D : Driver) : Type := {
  await_client_close : Client -> result unit * Client
}.

(** Closing [flagDriver]'s client always settles. *)
Definition flagAwaitedClose : AwaitedClose flagDriver := {|
  await_client_close := fun _ => (Ok tt, false : @Client flagDriver)
|}.

(** A close that is rejected. *)
Definition rejectedClose : AwaitedClose flagDriver := {|
  await_client_close := fun c => (Throw (DriverError (lit "close failed")), c)
|}.

(** A driver that refuses every connection and knows no database. *)
Definition refusingDriver : Driver := {|
  Client := bool;
  Db := jsstring;
  Collection := jsstring * jsstring;
  MongoClient := fun _ => false;
  client_connect := fun c => (Throw (DriverError (lit "ECONNREFUSED")), c);
  client_close := fun _ => (Ok tt, false);
  client_db := fun _ _ => Throw (DriverError (lit "no database"));
  db_collection := fun _ _ => Throw (DriverError (lit "no collection"))
|}.

Definition refusingAwaitedClose : AwaitedClose refusingDriver := {|
  await_client_close := fun _ => (Ok tt, false : @Client refusingDriver)
|}.

Section RemainingMethods.
Context {D : Driver} {W : AwaitedClose D}.

(** One statement after another. *)
Definition method_bind {A B} (f : method A) (k : A -> method B) : method B :=
  fun this =>
    match f this with
    | (Ok a, this') => k a this'
    | (Throw e, this') => (Throw e, this')
    end.

(** Lines 169-171, 173-175 and 177-179: the getters. *)
Definition get_client : method Client := fun this => (Ok (_client this), this).
Definition get_collection : method (option Collection) :=
  fun this => (Ok (_collection this), this).
Definition get_database : method (option Db) :=
  fun this => (Ok (_database this), this).

Definition set_connectionUri (uri : jsstring) (this : MongoManager) : MongoManager :=
  {| connectionUri := uri; _client := _client this;
     _database := _database this; _collection := _collection this |}.

(** [await this._client.close()] *)
Definition await_close : method unit :=
  fun this =>
    let (r, c) := await_client_close (_client this) in (r, set__client c this).

(** Lines 205-218. *)
Definition updateConnectionString (options : value) : method unit :=
  try_catch
    (method_bind await_close (fun _ =>
     method_bind
       (fun this =>
          (Ok tt, set_connectionUri (connectionUri this ++ ToString options) this))
       (fun _ =>
     method_bind
       (fun this => (Ok tt, set__client (MongoClient (connectionUri this)) this))
       (fun _ =>
     promise_catch connect (fun error => errorMessage error)))))
    (fun error => errorMessage error).

End RemainingMethods.

(** ** What the remaining properties speak of *)

(** The mechanism names the constructor lets through without [tlsOptions]. *)
Definition recognisedMechanisms {K : Constants} : list jsstring :=
  [AUTH_METHODS.DEFAULT; AUTH_METHODS.SCRAM_256; AUTH_METHODS.SCRAM_1; AUTH_METHODS_TLS].



(** [bob_db1] with [tlsOptions: {tlsCAFile: '/etc/ca.pem', tls: true}] and
    [authMechanism: 'PLAIN'] *)
Definition bob_tls_plain : Options.t :=
  Options.set_authMechanism (str "PLAIN")
    (Options.set_tlsOptions
       (Some [(lit "tlsCAFile", str "/etc/ca.pem"); (lit "tls", VBool true)])
       bob_db1).

(** [bob_db1] with [clientOptions: {w: 'majority', retryWrites: true}] *)
Definition bob_client_options : Options.t :=
  Options.set_clientOptions
    (Some [(lit "w", str "majority"); (lit "retryWrites", VBool true)]) bob_db1.

(** An instance over [flagDriver] with database "app" and collection "users"
    selected. *)
Definition selected_instance : @MongoManager flagDriver :=
  set__collection (D := flagDriver) (lit "app", lit "users")
    (set__database (D := flagDriver) (lit "app")
       (set__client (D := flagDriver) true fresh_instance)).

(** A freshly built instance over [refusingDriver]. *)
Definition refused_instance : @MongoManager refusingDriver :=
  instance_of (D := refusingDriver) (lit "mongodb://bob@h/db1").

(** A driver whose [collection] throws a TypeError of its own. *)
Definition typeErrorDriver : Driver := {|
  Client := bool;
  Db := jsstring;
  Collection := jsstring * jsstring;
  MongoClient := fun _ => false;
  client_connect := fun _ => (Ok tt, true);
  client_close := fun _ => (Ok tt, false);
  client_db := fun _ name => Ok name;
  db_collection := fun _ _ => Throw TypeError
|}.

(** An instance over [typeErrorDriver] with database "app" selected. *)
Definition typeError_instance : @MongoManager typeErrorDriver :=
  set__database (D := typeErrorDriver) (lit "app")
    (instance_of (D := typeErrorDriver) (lit "mongodb://bob@h/db1")).

(** * Properties *)

(** ** The result monad *)

Lemma bind_Ok {A B} (r : result A) (k : A -> result B) (b : B) :
  bind r k = Ok b -> exists a, r = Ok a /\ k a = Ok b.
Proof.
  destruct r as [a|e]; simpl; intros H; [eauto | discriminate].
Qed.

Lemma bind_Throw {A B} (r : result A) (k : A -> result B) (e : exn) :
  bind r k = Throw e -> r = Throw e \/ exists a, r = Ok a /\ k a = Throw e.
Proof.
  destruct r as [a|e']; simpl; intros H; [right; eauto | left; congruence].
Qed.

(** ** Substrings, decided *)

Lemma isPrefix_spec p s : isPrefix p s = true <-> exists post, s = p ++ post.
Proof.
  revert s; induction p as [|x p IH]; intros s; cbn [isPrefix].
  - split; [intros _; exists s; reflexivity | reflexivity].
  - destruct s as [|y s].
    + split; [discriminate | intros [post E]; discriminate].
    + rewrite andb_true_iff, N.eqb_eq, IH. split.
      * intros [-> [post ->]]. exists post; reflexivity.
      * intros [post E]. injection E as -> ->. split; [reflexivity | eauto].
Qed.

Lemma occursb_spec p s : occursb p s = true <-> occurs p s.
Proof.
  unfold occurs. induction s as [|y s IH]; cbn [occursb].
  - rewrite orb_false_r, isPrefix_spec. split.
    + intros [post E]. exists [], post; exact E.
    + intros [pre [post E]]. destruct pre; [eauto | discriminate].
  - rewrite orb_true_iff, isPrefix_spec, IH. split.
    + intros [[post E]|[pre [post E]]].
      * exists [], post; exact E.
      * exists (y :: pre), post. now rewrite E.
    + intros [[|z pre] [post E]].
      * left; eauto.
      * right. injection E as _ ->. eauto.
Qed.

Lemma not_occurs p s : occursb p s = false -> ~ occurs p s.
Proof.
  intros H Hocc. apply occursb_spec in Hocc. congruence.
Qed.

Lemma precedesb_spec a b s : precedesb a b s = true <-> precedes a b s.
Proof.
  unfold precedes. induction s as [|y s IH]; cbn [precedesb].
  - rewrite orb_false_r, andb_true_iff, isPrefix_spec, occursb_spec. split.
    + intros [[post E] [pre' [post' E']]].
      destruct a; [|discriminate]. cbn in E'. exists [], pre', post'. exact E'.
    + intros [pre [mid [post E]]].
      destruct pre; [|discriminate]. destruct a; [|discriminate].
      split; [exists []; reflexivity|]. cbn. exists mid, post. exact E.
  - rewrite orb_true_iff, andb_true_iff, isPrefix_spec, occursb_spec, IH. split.
    + intros [[[post E] [pre' [post' E']]]|[pre [mid [post E]]]].
      * rewrite E in E'. rewrite skipn_app, skipn_all, Nat.sub_diag in E'.
        cbn in E'. subst post. exists [], pre', post'. exact E.
      * exists (y :: pre), mid, post. now rewrite E.
    + intros [[|z pre] [mid [post E]]].
      * left. cbn in E. split; [eexists; exact E|].
        rewrite E, skipn_app, skipn_all, Nat.sub_diag. cbn. exists mid, post; reflexivity.
      * right. injection E as _ ->. eauto.
Qed.

Lemma not_precedes a b s : precedesb a b s = false -> ~ precedes a b s.
Proof.
  intros H Hp. apply precedesb_spec in Hp. congruence.
Qed.

Lemma not_In_decided c p : existsb (N.eqb c) p = false -> ~ In c p.
Proof.
  intros H Hin. assert (E : existsb (N.eqb c) p = true).
  { apply existsb_exists. exists c. split; [exact Hin | apply N.eqb_refl]. }
  congruence.
Qed.

Ltac absent := apply not_In_decided; reflexivity.

(** ** Where a pattern can occur in a concatenation *)

Lemma occurs_app_l p a b : occurs p a -> occurs p (a ++ b).
Proof.
  intros [pre [post ->]]. exists pre, (post ++ b). now rewrite <- !app_assoc.
Qed.

Lemma occurs_app_r p a b : occurs p b -> occurs p (a ++ b).
Proof.
  intros [pre [post ->]]. exists (a ++ pre), post. now rewrite <- !app_assoc.
Qed.

Lemma occurs_nil p : occurs p [] -> p = [].
Proof.
  intros [pre [post E]]. symmetry in E.
  apply app_eq_nil in E. destruct E as [_ E].
  now apply app_eq_nil in E.
Qed.

Lemma occurs_cons_inv p c s :
  occurs p (c :: s) -> isPrefix p (c :: s) = true \/ occurs p s.
Proof.
  intros H. apply occursb_spec in H. cbn [occursb] in H.
  apply orb_true_iff in H. destruct H as [H|H]; [now left|].
  right. now apply occursb_spec.
Qed.

(** A code unit foreign to the pattern cuts every occurrence off. *)
Lemma occurs_split_at p a c b :
  ~ In c p -> occurs p (a ++ c :: b) -> occurs p a \/ occurs p b.
Proof.
  intros Hc [pre [post E]].
  apply app_eq_app in E. destruct E as [l [[E1 E2]|[E1 E2]]].
  - (* the occurrence starts inside [a] *)
    symmetry in E2. apply app_eq_app in E2.
    destruct E2 as [l' [[E3 E4]|[E3 E4]]].
    + left. exists pre, l'. now rewrite E1, E3.
    + destruct l' as [|x l'].
      * left. exists pre, []. rewrite E1, E3. now rewrite !app_nil_r.
      * exfalso. apply Hc. injection E4 as <- _. rewrite E3.
        apply in_or_app. right. now left.
  - (* the occurrence starts at [c] or later *)
    destruct l as [|x l].
    + destruct p as [|y p].
      * left. exists a, []. now rewrite app_nil_r.
      * exfalso. apply Hc. cbn in E2. injection E2 as -> _. now left.
    + right. injection E2 as _ ->. now exists l, post.
Qed.

(** When the pattern ends with a code unit that [b] lacks, an occurrence in
    [a ++ b] ends inside [a]. *)
Lemma occurs_ends_before q e a b :
  ~ In e b -> occurs (q ++ [e]) (a ++ b) -> occurs (q ++ [e]) a.
Proof.
  intros He [pre [post E]].
  rewrite app_assoc in E.
  apply app_eq_app in E. destruct E as [l [[E1 E2]|[E1 E2]]].
  - exists pre, l. now rewrite E1, <- app_assoc.
  - destruct l as [|x l0].
    + exists pre, []. rewrite app_nil_r in E1. now rewrite <- E1, app_nil_r.
    + exfalso. apply He.
      destruct (exists_last (l := x :: l0)) as [l' [z El]]; [discriminate|].
      rewrite El in E1, E2.
      rewrite !app_assoc in E1. apply app_inj_tail in E1. destruct E1 as [_ <-].
      rewrite E2. apply in_or_app. left. apply in_or_app. right. now left.
Qed.

(** Drops the leading literal code units of the text in [H : occurs p text],
    as long as [p] is a prefix at none of them. *)
Ltac skip_literal H :=
  repeat (apply occurs_cons_inv in H;
          destruct H as [H|H]; [vm_compute in H; discriminate H|]).

(** ** Code units *)

Ltac unfold_ranges :=
  unfold uriUnreserved, isAlpha, isDigit, isMark, isLeadSurrogate,
    isTrailSurrogate, isContinuation, in_range in *;
  cbn [existsb] in *.

Ltac bool_to_prop :=
  repeat match goal with
  | H : _ && _ = true |- _ => apply andb_true_iff in H; destruct H
  | H : _ || _ = true |- _ => apply orb_true_iff in H; destruct H
  | H : _ && _ = false |- _ => apply andb_false_iff in H; destruct H
  | H : _ || _ = false |- _ => apply orb_false_iff in H; destruct H
  | H : negb _ = true |- _ => apply negb_true_iff in H
  | H : negb _ = false |- _ => apply negb_false_iff in H
  | H : (_ <=? _) = true |- _ => apply N.leb_le in H
  | H : (_ <=? _) = false |- _ => apply N.leb_gt in H
  | H : (_ <? _) = true |- _ => apply N.ltb_lt in H
  | H : (_ <? _) = false |- _ => apply N.ltb_ge in H
  | H : (_ =? _) = true |- _ => apply N.eqb_eq in H
  | H : (_ =? _) = false |- _ => apply N.eqb_neq in H
  | H : false = true |- _ => discriminate H
  | H : true = false |- _ => discriminate H
  end.

(** An unreserved code unit is a letter, a digit or a mark. *)
Lemma uriUnreserved_spec c :
  uriUnreserved c = true ->
  65 <= c <= 90 \/ 97 <= c <= 122 \/ 48 <= c <= 57 \/
  c = 45 \/ c = 95 \/ c = 46 \/ c = 33 \/ c = 126 \/ c = 42 \/ c = 39 \/
  c = 40 \/ c = 41.
Proof.
  intros H. unfold_ranges. bool_to_prop; lia.
Qed.

Lemma uriUnreserved_not_surrogate c :
  uriUnreserved c = true -> isLeadSurrogate c = false /\ isTrailSurrogate c = false.
Proof.
  intros H. apply uriUnreserved_spec in H.
  unfold isLeadSurrogate, isTrailSurrogate, in_range.
  split; apply andb_false_iff; left; apply N.leb_gt; lia.
Qed.

Lemma lead_not_trail c : isLeadSurrogate c = true -> isTrailSurrogate c = false.
Proof.
  intros H. unfold_ranges. bool_to_prop.
  apply andb_false_iff; left; apply N.leb_gt; lia.
Qed.

(** ** Induction two code units at a time *)

Lemma jsstring_ind2 (P : jsstring -> Prop) :
  P [] ->
  (forall c t, P t -> (forall d t', t = d :: t' -> P t') -> P (c :: t)) ->
  forall s, P s.
Proof.
  intros Hnil Hcons s.
  assert (H : P s /\ (forall d t', s = d :: t' -> P t')).
  { induction s as [|c t [IH1 IH2]].
    - split; [exact Hnil | discriminate].
    - split.
      + apply Hcons; assumption.
      + intros d t' E. injection E as _ <-. exact IH1. }
  exact (proj1 H).
Qed.

(** ** encodeURIComponent throws exactly on ill-formed strings *)

Lemma Encode_wellFormed s :
  isWellFormed s = true -> exists r, Encode s = Ok r.
Proof.
  induction s as [|c t IH1 IH2] using jsstring_ind2; intros H.
  - exists []; reflexivity.
  - cbn [Encode isWellFormed] in *.
    destruct (uriUnreserved c) eqn:Eu.
    + destruct (uriUnreserved_not_surrogate c Eu) as [El Et].
      rewrite El, Et in H. cbn in H.
      destruct (IH1 H) as [r ->]. eexists; reflexivity.
    + destruct (isLeadSurrogate c) eqn:El.
      * destruct t as [|d t']; [discriminate|].
        apply andb_true_iff in H. destruct H as [Hd Ht]. rewrite Hd.
        destruct (IH2 d t' eq_refl Ht) as [r ->]. eexists; reflexivity.
      * apply andb_true_iff in H. destruct H as [Hc Ht].
        apply negb_true_iff in Hc. rewrite Hc.
        destruct (IH1 Ht) as [r ->]. eexists; reflexivity.
Qed.

Lemma Encode_Throw s e :
  Encode s = Throw e -> e = URIError /\ isWellFormed s = false.
Proof.
  induction s as [|c t IH1 IH2] using jsstring_ind2; intros H.
  - discriminate.
  - cbn [Encode isWellFormed] in *.
    destruct (uriUnreserved c) eqn:Eu.
    + destruct (uriUnreserved_not_surrogate c Eu) as [El Et].
      rewrite El, Et. cbn.
      destruct (Encode t) as [r|x]; cbn in H; [discriminate|].
      injection H as ->. now apply IH1.
    + destruct (isLeadSurrogate c) eqn:El.
      * destruct t as [|d t']; [injection H as <-; now split|].
        destruct (isTrailSurrogate d); [|injection H as <-; now split].
        destruct (Encode t') as [r|x] eqn:E'; cbn in H; [discriminate|].
        injection H as ->. cbn. now apply (IH2 d t' eq_refl).
      * destruct (isTrailSurrogate c); [injection H as <-; now split|].
        destruct (Encode t) as [r|x]; cbn in H; [discriminate|].
        injection H as ->. cbn. now apply IH1.
Qed.

Lemma Encode_Ok_wellFormed s r : Encode s = Ok r -> isWellFormed s = true.
Proof.
  revert r.
  induction s as [|c t IH1 IH2] using jsstring_ind2; intros r H.
  - reflexivity.
  - cbn [Encode isWellFormed] in *.
    destruct (uriUnreserved c) eqn:Eu.
    + destruct (uriUnreserved_not_surrogate c Eu) as [El Et].
      rewrite El, Et. cbn.
      destruct (Encode t) as [r'|x] eqn:E'; cbn in H; [|discriminate].
      exact (IH1 r' eq_refl).
    + destruct (isLeadSurrogate c) eqn:El.
      * destruct t as [|d t']; [discriminate|].
        destruct (isTrailSurrogate d); [|discriminate].
        destruct (Encode t') as [r'|x] eqn:E'; cbn in H; [|discriminate].
        cbn. exact (IH2 d t' eq_refl r' E').
      * destruct (isTrailSurrogate c); [discriminate|]. cbn.
        destruct (Encode t) as [r'|x] eqn:E'; cbn in H; [|discriminate].
        exact (IH1 r' eq_refl).
Qed.

(** ** What encodeURIComponent can write *)

Lemma hexDigit_not_equals n : hexDigit n <> 61.
Proof.
  unfold hexDigit. destruct (n <? 10) eqn:E; bool_to_prop; lia.
Qed.

Lemma pctOctets_no_equals bs : ~ In 61 (pctOctets bs).
Proof.
  induction bs as [|b bs IH]; cbn [pctOctets flat_map pctOctet]; [easy|].
  cbn [app In]. intros [H|[H|[H|H]]].
  - discriminate.
  - now apply hexDigit_not_equals in H.
  - now apply hexDigit_not_equals in H.
  - now apply IH.
Qed.

(** An encoded string holds no equals sign. *)
Lemma Encode_no_equals s r : Encode s = Ok r -> ~ In 61 r.
Proof.
  revert r. induction s as [|c t IH1 IH2] using jsstring_ind2; intros r H.
  - injection H as <-. easy.
  - cbn [Encode] in H.
    destruct (uriUnreserved c) eqn:Eu.
    + apply bind_Ok in H. destruct H as [r' [Hr H]]. injection H as <-.
      intros [Hc|Hin]; [|now apply (IH1 r')].
      subst c. discriminate Eu.
    + destruct (isLeadSurrogate c).
      * destruct t as [|d t']; [discriminate|].
        destruct (isTrailSurrogate d); [|discriminate].
        apply bind_Ok in H. destruct H as [r' [Hr H]]. injection H as <-.
        intros Hin. apply in_app_or in Hin. destruct Hin as [Hin|Hin].
        -- now apply pctOctets_no_equals in Hin.
        -- now apply (IH2 d t' eq_refl r').
      * destruct (isTrailSurrogate c); [discriminate|].
        apply bind_Ok in H. destruct H as [r' [Hr H]]. injection H as <-.
        intros Hin. apply in_app_or in Hin. destruct Hin as [Hin|Hin].
        -- now apply pctOctets_no_equals in Hin.
        -- now apply (IH1 r').
Qed.

(** ** decodeURIComponent undoes encodeURIComponent *)

(** The quotient and the remainder of [c] by [k], as [lia] needs them. *)
Ltac divmod c k :=
  pose proof (N.div_mod' c k);
  pose proof (N.mod_lt c k ltac:(lia));
  pose proof (N.le_0_l (c mod k));
  pose proof (N.le_0_l (c / k)).

Lemma hexValue_hexDigit n : n < 16 -> hexValue (hexDigit n) = Some n.
Proof.
  intros H.
  destruct n as [|p]; [reflexivity|].
  do 4 (destruct p as [p|p|]; try reflexivity); lia.
Qed.

Lemma parseHexOctet_pct b rest :
  b < 256 ->
  parseHexOctet (hexDigit (b / 16) :: hexDigit (b mod 16) :: rest) = Some (b, rest).
Proof.
  intros H. divmod b 16. unfold parseHexOctet.
  rewrite !hexValue_hexDigit by lia.
  f_equal. f_equal. lia.
Qed.

Lemma continuation_pct bs rest :
  Forall (fun b => b < 256) bs ->
  continuation (List.length bs) (pctOctets bs ++ rest) = Some (bs, rest).
Proof.
  induction 1 as [|b bs Hb _ IH]; [reflexivity|].
  cbn [List.length pctOctets flat_map pctOctet app continuation].
  rewrite (parseHexOctet_pct b _ Hb).
  fold (pctOctets bs). now rewrite IH.
Qed.

Lemma leadingOnes_spec b :
  (b < 128 -> leadingOnes b = 0%nat) /\
  (192 <= b < 224 -> leadingOnes b = 2%nat) /\
  (224 <= b < 240 -> leadingOnes b = 3%nat) /\
  (240 <= b < 248 -> leadingOnes b = 4%nat).
Proof.
  unfold leadingOnes.
  destruct (b <? 128) eqn:E1; [|destruct (b <? 192) eqn:E2; [|destruct (b <? 224) eqn:E3;
    [|destruct (b <? 240) eqn:E4; [|destruct (b <? 248) eqn:E5]]]];
    bool_to_prop; repeat split; intros; try reflexivity; lia.
Qed.

Lemma isContinuation_128 x : x < 64 -> isContinuation (128 + x) = true.
Proof.
  intros H. unfold isContinuation, in_range.
  apply andb_true_iff. split; apply N.leb_le; lia.
Qed.

Lemma utf8Decode_2 cp :
  128 <= cp < 2048 -> utf8Decode [192 + cp / 64; 128 + cp mod 64] = Some cp.
Proof.
  intros H. divmod cp 64. unfold utf8Decode. cbv zeta.
  replace ((192 + cp / 64 - 192) * 64 + (128 + cp mod 64 - 128)) with cp by lia.
  rewrite isContinuation_128 by lia. cbn [andb].
  destruct (128 <=? cp) eqn:E; [reflexivity | bool_to_prop; lia].
Qed.

Lemma utf8Decode_3 cp :
  2048 <= cp < 65536 -> ~ (55296 <= cp <= 57343) ->
  utf8Decode [224 + cp / 4096; 128 + (cp / 64) mod 64; 128 + cp mod 64] = Some cp.
Proof.
  intros H Hs. divmod cp 64. divmod (cp / 64) 64.
  pose proof (N.Div0.div_div cp 64 64) as E1. change (64 * 64) with 4096 in E1.
  unfold utf8Decode. cbv zeta.
  replace ((224 + cp / 4096 - 224) * 4096 + (128 + (cp / 64) mod 64 - 128) * 64
           + (128 + cp mod 64 - 128)) with cp by lia.
  rewrite !isContinuation_128 by lia. cbn [andb].
  destruct (2048 <=? cp) eqn:E; [|bool_to_prop; lia]. cbn [andb].
  destruct (in_range 55296 57343 cp) eqn:Er; [|reflexivity].
  unfold in_range in Er. bool_to_prop. lia.
Qed.

Lemma utf8Decode_4 cp :
  65536 <= cp < 1114112 ->
  utf8Decode [240 + cp / 262144; 128 + (cp / 4096) mod 64;
              128 + (cp / 64) mod 64; 128 + cp mod 64] = Some cp.
Proof.
  intros H. divmod cp 64. divmod (cp / 64) 64. divmod (cp / 4096) 64.
  pose proof (N.Div0.div_div cp 64 64) as E1. change (64 * 64) with 4096 in E1.
  pose proof (N.Div0.div_div cp 4096 64) as E2. change (4096 * 64) with 262144 in E2.
  unfold utf8Decode. cbv zeta.
  replace ((240 + cp / 262144 - 240) * 262144 + (128 + (cp / 4096) mod 64 - 128) * 4096
           + (128 + (cp / 64) mod 64 - 128) * 64 + (128 + cp mod 64 - 128))
    with cp by lia.
  rewrite !isContinuation_128 by lia. cbn [andb].
  destruct (65536 <=? cp) eqn:E; [|bool_to_prop; lia]. cbn [andb].
  destruct (cp <=? 1114111) eqn:E'; [reflexivity | bool_to_prop; lia].
Qed.

Lemma UTF16EncodeCodePoint_unit cp : cp < 65536 -> UTF16EncodeCodePoint cp = [cp].
Proof.
  intros H. unfold UTF16EncodeCodePoint.
  destruct (cp <=? 65535) eqn:E; [reflexivity | bool_to_prop; lia].
Qed.

Lemma pctOctets_cons b bs rest :
  pctOctets (b :: bs) ++ rest
  = 37 :: hexDigit (b / 16) :: hexDigit (b mod 16) :: (pctOctets bs ++ rest).
Proof. reflexivity. Qed.

Lemma decodeStep_ascii b rest :
  b < 128 ->
  decodeStep 37 (hexDigit (b / 16) :: hexDigit (b mod 16) :: rest) = Ok ([b], rest).
Proof.
  intros H. unfold decodeStep. cbn [N.eqb Pos.eqb].
  rewrite parseHexOctet_pct by lia.
  now rewrite (proj1 (leadingOnes_spec b) H).
Qed.

Lemma decodeStep_octets b0 bs rest v :
  b0 < 256 -> Forall (fun b => b < 256) bs ->
  leadingOnes b0 = S (List.length bs) ->
  (1 <= List.length bs <= 3)%nat ->
  utf8Decode (b0 :: bs) = Some v ->
  decodeStep 37 (hexDigit (b0 / 16) :: hexDigit (b0 mod 16) :: (pctOctets bs ++ rest))
  = Ok (UTF16EncodeCodePoint v, rest).
Proof.
  intros Hb0 Hbs Hlead Hlen Hdec. unfold decodeStep. cbn [N.eqb Pos.eqb].
  rewrite parseHexOctet_pct by exact Hb0.
  rewrite Hlead.
  assert (Hn : (List.length bs =? 0)%nat || (4 <=? List.length bs)%nat = false).
  { apply orb_false_iff. split.
    - apply Nat.eqb_neq. lia.
    - apply Nat.leb_gt. lia. }
  rewrite Hn, (continuation_pct bs rest Hbs), Hdec. reflexivity.
Qed.

Lemma decodeStep_pct cp rest :
  scalarValue cp ->
  exists t,
    pctOctets (utf8 cp) ++ rest = 37 :: t /\
    (List.length rest <= List.length t)%nat /\
    decodeStep 37 t = Ok (UTF16EncodeCodePoint cp, rest).
Proof.
  intros [Hmax Hsur]. unfold utf8.
  divmod cp 64. divmod (cp / 64) 64. divmod (cp / 4096) 64.
  pose proof (N.Div0.div_div cp 64 64) as E1. change (64 * 64) with 4096 in E1.
  pose proof (N.Div0.div_div cp 4096 64) as E2. change (4096 * 64) with 262144 in E2.
  destruct (cp <? 128) eqn:C1; [|destruct (cp <? 2048) eqn:C2;
                                  [|destruct (cp <? 65536) eqn:C3]];
    bool_to_prop; rewrite pctOctets_cons; eexists;
    (split; [reflexivity|]);
    (split; [cbn [List.length]; rewrite length_app; lia|]).
  - rewrite UTF16EncodeCodePoint_unit by lia.
    apply decodeStep_ascii. lia.
  - apply decodeStep_octets.
    + lia.
    + repeat constructor; lia.
    + apply leadingOnes_spec. lia.
    + cbn; lia.
    + apply utf8Decode_2. lia.
  - apply decodeStep_octets.
    + lia.
    + repeat constructor; lia.
    + apply leadingOnes_spec. lia.
    + cbn; lia.
    + apply utf8Decode_3; lia.
  - apply decodeStep_octets.
    + lia.
    + repeat constructor; lia.
    + apply leadingOnes_spec. lia.
    + cbn; lia.
    + apply utf8Decode_4. lia.
Qed.

Lemma decodeStep_literal c t : c <> 37 -> decodeStep c t = Ok ([c], t).
Proof.
  intros H. unfold decodeStep.
  destruct (c =? 37) eqn:E; [bool_to_prop; contradiction | reflexivity].
Qed.

Lemma pair_scalarValue c d :
  isLeadSurrogate c = true -> isTrailSurrogate d = true ->
  scalarValue (pairToCodePoint c d) /\
  UTF16EncodeCodePoint (pairToCodePoint c d) = [c; d].
Proof.
  intros Hc Hd. unfold_ranges. bool_to_prop.
  unfold scalarValue, pairToCodePoint, UTF16EncodeCodePoint.
  split; [lia|].
  destruct (_ <=? 65535) eqn:E; [bool_to_prop; lia|].
  replace ((c - 55296) * 1024 + (d - 56320) + 65536 - 65536)
    with ((d - 56320) + (c - 55296) * 1024) by lia.
  rewrite N.div_add, N.Div0.mod_add by lia.
  rewrite N.div_small, N.mod_small by lia.
  f_equal; [|f_equal]; lia.
Qed.

Lemma unit_scalarValue c :
  is_code_unit c -> isLeadSurrogate c = false -> isTrailSurrogate c = false ->
  scalarValue c.
Proof.
  unfold is_code_unit, scalarValue. intros H Hl Ht.
  unfold_ranges. split; [lia|]. intros Hs. bool_to_prop; lia.
Qed.

(** Decoding what Encode wrote gives the string back, for any fuel that
    covers the length of the encoded text. *)
Lemma Decode_Encode (s : jsstring) :
  Forall is_code_unit s ->
  forall r, Encode s = Ok r ->
  forall fuel, (List.length r <= fuel)%nat -> Decode fuel r = Some (Ok s).
Proof.
  induction s as [|c t IH1 IH2] using jsstring_ind2; intros Hs r H fuel Hf.
  - injection H as <-. now destruct fuel.
  - apply Forall_cons_iff in Hs. destruct Hs as [Hc Ht].
    cbn [Encode] in H.
    destruct (uriUnreserved c) eqn:Eu.
    + apply bind_Ok in H. destruct H as [r' [Hr H]]. injection H as <-.
      destruct fuel as [|fuel]; [cbn in Hf; lia|].
      cbn [Decode]. rewrite decodeStep_literal.
      * rewrite (IH1 Ht r' Hr fuel) by (cbn in Hf; lia). reflexivity.
      * intros ->. discriminate Eu.
    + destruct (isLeadSurrogate c) eqn:El.
      * destruct t as [|d t']; [discriminate|].
        destruct (isTrailSurrogate d) eqn:Ed; [|discriminate].
        apply bind_Ok in H. destruct H as [r' [Hr H]]. injection H as <-.
        destruct (pair_scalarValue c d El Ed) as [Hsv Hpair].
        destruct (decodeStep_pct _ r' Hsv) as [x [Ex [Hlen Hx]]].
        rewrite Ex in Hf |- *.
        destruct fuel as [|fuel]; [cbn in Hf; lia|].
        cbn [Decode]. rewrite Hx, Hpair.
        apply Forall_cons_iff in Ht. destruct Ht as [_ Ht'].
        rewrite (IH2 d t' eq_refl Ht' r' Hr fuel); [reflexivity|].
        cbn [List.length] in Hf. lia.
      * destruct (isTrailSurrogate c) eqn:Etr; [discriminate|].
        apply bind_Ok in H. destruct H as [r' [Hr H]]. injection H as <-.
        destruct (decodeStep_pct c r' (unit_scalarValue c Hc El Etr)) as [x [Ex [Hlen Hx]]].
        rewrite Ex in Hf |- *.
        destruct fuel as [|fuel]; [cbn in Hf; lia|].
        cbn [Decode]. rewrite Hx, UTF16EncodeCodePoint_unit by exact Hc.
        rewrite (IH1 Ht r' Hr fuel); [reflexivity|].
        cbn [List.length] in Hf. lia.
Qed.

Lemma parseHexOctet_length s b rest :
  parseHexOctet s = Some (b, rest) -> List.length s = S (S (List.length rest)).
Proof.
  destruct s as [|h [|l s]]; cbn [parseHexOctet]; try discriminate.
  destruct (hexValue h); [|discriminate].
  destruct (hexValue l); [|discriminate].
  intros H. now injection H as _ <-.
Qed.

Lemma continuation_length n s bs rest :
  continuation n s = Some (bs, rest) -> (List.length rest <= List.length s)%nat.
Proof.
  revert s bs rest; induction n as [|n IH]; intros s bs rest; cbn [continuation].
  - intros H. injection H as _ <-. lia.
  - destruct s as [|c t]; [discriminate|].
    destruct c as [|p]; [discriminate|].
    destruct (Pos.eq_dec p 37) as [->|Hp].
    + destruct (parseHexOctet t) as [[b t1]|] eqn:Ep; [|discriminate].
      destruct (continuation n t1) as [[bs' rest']|] eqn:Ec; [|discriminate].
      intros H. injection H as _ <-.
      apply parseHexOctet_length in Ep. apply IH in Ec. cbn [List.length]. lia.
    + intros H. exfalso.
      do 6 (destruct p as [p|p|]; try discriminate H); now apply Hp.
Qed.

Lemma decodeStep_length c t units rest :
  decodeStep c t = Ok (units, rest) -> (List.length rest <= List.length t)%nat.
Proof.
  unfold decodeStep. destruct (c =? 37).
  - destruct (parseHexOctet t) as [[b t1]|] eqn:Ep; [|discriminate].
    apply parseHexOctet_length in Ep.
    destruct (leadingOnes b) as [|n].
    + intros H. injection H as _ <-. lia.
    + destruct (_ || _); [discriminate|].
      destruct (continuation n t1) as [[bs t2]|] eqn:Ec; [|discriminate].
      apply continuation_length in Ec.
      destruct (utf8Decode (b :: bs)); [|discriminate].
      intros H. injection H as _ <-. lia.
  - intros H. injection H as _ <-. lia.
Qed.

(** The length of the input is enough fuel: Decode always comes to an end. *)
Lemma Decode_fuel fuel s :
  (List.length s <= fuel)%nat -> exists r, Decode fuel s = Some r.
Proof.
  revert s; induction fuel as [|fuel IH]; intros s Hs.
  - destruct s; [eexists; reflexivity | cbn in Hs; lia].
  - destruct s as [|c t]; [eexists; reflexivity|].
    cbn [Decode].
    destruct (decodeStep c t) as [[units rest]|e] eqn:Es; [|eexists; reflexivity].
    apply decodeStep_length in Es.
    destruct (IH rest) as [r Hr]; [cbn in Hs; lia|].
    rewrite Hr. destruct r; eexists; reflexivity.
Qed.

Lemma decodeURIComponent_total s : exists r, decodeURIComponent s = Some r.
Proof. apply Decode_fuel. lia. Qed.

Lemma decodeURIComponent_Encode (s r : jsstring) :
  Forall is_code_unit s -> Encode s = Ok r -> decodeURIComponent r = Some (Ok s).
Proof.
  intros Hs Hr. unfold decodeURIComponent. now apply (Decode_Encode s Hs r Hr).
Qed.

(** ** The constructor concatenates the segments *)

Section SegmentsCorrect.
Context {K : Constants} {D : Driver}.

Import STRINGS.

Lemma clientLoop_text obj keys acc :
  clientLoop obj keys acc = acc ++ clientText obj keys.
Proof.
  revert acc; induction keys as [|k keys IH]; intros acc;
    cbn [clientLoop clientText flat_map].
  - now rewrite app_nil_r.
  - rewrite IH. unfold parameter. now rewrite <- !app_assoc.
Qed.

Lemma tlsLoop_text obj keys acc :
  tlsLoop obj keys acc = (t <- tlsText obj keys ;; Ok (acc ++ t)).
Proof.
  revert acc; induction keys as [|k keys IH]; intros acc;
    cbn [tlsLoop tlsText bind].
  - now rewrite app_nil_r.
  - unfold tlsValue. destruct (typeof_string (Get obj k)).
    + destruct (encodeURIComponent (Get obj k)) as [e|x]; cbn [bind]; [|reflexivity].
      rewrite IH. destruct (tlsText obj keys); cbn [bind]; [|reflexivity].
      unfold parameter. now rewrite <- !app_assoc.
    + cbn [bind]. rewrite IH. destruct (tlsText obj keys); cbn [bind]; [|reflexivity].
      unfold parameter. now rewrite <- !app_assoc.
Qed.

Lemma truthy_not_empty v : truthy v && not_empty_string v = truthy v.
Proof. destruct v as [| |[]|[|c s]]; reflexivity. Qed.

Lemma truthy_js_or_false v : truthy (js_or v (VBool false)) = truthy v.
Proof. unfold js_or. destruct (truthy v) eqn:E; [exact E | reflexivity]. Qed.

Lemma js_or_truthy v w : truthy v = true -> js_or v w = v.
Proof. unfold js_or. now intros ->. Qed.

(** The constructor's else branch writes the segments in this order: scheme,
    user name, password, validation source, mechanism, TLS parameters,
    client options. *)
Lemma deriveUri_segments (o : Options.t) : deriveUri o = segments o.
Proof.
  unfold deriveUri, segments.
  destruct (encodeURIComponent (Options.username o)) as [u|e]; cbn [bind]; [|reflexivity].
  unfold addPassword, passwordSegment.
  rewrite truthy_js_or_false.
  assert (Hmain : forall p,
    (' (uri, clientOptions) <-
       addAuthMechanism o
         (addValidationSource (Options.host o) (Options.loginDatabase o)
            (Options.authSource o) (connectionBase o u ++ p)) [] ;;
     Ok (uri ++ addClientOptions o clientOptions))
    = (t <- tlsSegment o ;; m <- mechanismSegment o ;;
       Ok (schemePrefix o ++ u ++ p ++ validationSegment o ++ m ++ t
             ++ clientSegment o))).
  { intros p.
    assert (Hv : addValidationSource (Options.host o) (Options.loginDatabase o)
                   (Options.authSource o) (connectionBase o u ++ p)
                 = schemePrefix o ++ u ++ p ++ validationSegment o).
    { unfold addValidationSource, validationSegment, connectionBase, schemePrefix.
      rewrite !truthy_not_empty.
      destruct (truthy (Options.svrString o));
        destruct (truthy (Options.loginDatabase o));
        destruct (truthy (Options.authSource o));
        rewrite <- ?app_assoc, ?app_nil_r; reflexivity. }
    rewrite Hv.
    assert (Hc : forall acc, addClientOptions o acc = acc ++ clientSegment o).
    { intros acc. unfold addClientOptions, clientSegment.
      destruct (Options.clientOptions o);
        [apply clientLoop_text | now rewrite app_nil_r]. }
    unfold addAuthMechanism, tlsSegment, mechanismSegment, mechanismValue.
    destruct (truthy (Options.authMechanism o)).
    - destruct (Options.tlsOptions o) as [obj|].
      + rewrite tlsLoop_text.
        destruct (tlsText obj (Object_keys obj)) as [t|e]; cbn [bind]; [|reflexivity].
        destruct (encodeURIComponent (Options.authMechanism o)) as [m|e]; simpl;
          [|reflexivity].
        rewrite Hc. unfold parameter.
        now rewrite <- !app_assoc.
      + destruct (_ || _); cbn [bind]; rewrite Hc; unfold parameter;
          now rewrite <- !app_assoc, ?app_nil_r.
    - cbn [bind]. rewrite Hc. now rewrite <- !app_assoc, ?app_nil_r. }
  destruct (truthy (Options.password o)) eqn:Ep.
  - rewrite (js_or_truthy _ _ Ep).
    destruct (encodeURIComponent (Options.password o)) as [p|e]; cbn [bind]; [|reflexivity].
    apply Hmain.
  - cbn [bind]. rewrite <- (Hmain []). now rewrite app_nil_r.
Qed.

Lemma constructor_explicit o :
  usesConnectionUri o = true ->
  constructor o = Ok (instance_of (ToString (Options.connectionUri o))).
Proof.
  unfold usesConnectionUri, constructor, buildUri. now intros ->.
Qed.

Lemma constructor_derived o :
  usesConnectionUri o = false ->
  constructor o = (uri <- segments o ;; Ok (instance_of uri)).
Proof.
  unfold usesConnectionUri, constructor, buildUri. intros ->.
  now rewrite deriveUri_segments.
Qed.

Lemma constructor_Ok o m :
  constructor o = Ok m -> m = instance_of (connectionUri m).
Proof.
  unfold constructor. intros H. apply bind_Ok in H.
  destruct H as [uri [_ H]]. now injection H as <-.
Qed.

Lemma constructor_segments o m :
  usesConnectionUri o = false ->
  constructor o = Ok m ->
  exists u p t mech,
    encodeURIComponent (Options.username o) = Ok u /\
    passwordSegment o = Ok p /\
    tlsSegment o = Ok t /\
    mechanismSegment o = Ok mech /\
    connectionUri m =
      schemePrefix o ++ u ++ p ++ validationSegment o ++ mech ++ t ++ clientSegment o.
Proof.
  intros Hx H. rewrite (constructor_derived o Hx) in H.
  apply bind_Ok in H. destruct H as [uri [Huri H]]. injection H as <-.
  unfold segments in Huri.
  apply bind_Ok in Huri. destruct Huri as [u [Hu Huri]].
  apply bind_Ok in Huri. destruct Huri as [p [Hp Huri]].
  apply bind_Ok in Huri. destruct Huri as [t [Ht Huri]].
  apply bind_Ok in Huri. destruct Huri as [mech [Hm Huri]].
  injection Huri as <-. exists u, p, t, mech. now repeat split.
Qed.

End SegmentsCorrect.

(** ** When the constructor returns and when it throws *)

Section Totality.
Context {K : Constants}.

Lemma encodeURIComponent_Throw v e :
  encodeURIComponent v = Throw e -> e = URIError /\ isWellFormed (ToString v) = false.
Proof. apply Encode_Throw. Qed.

Lemma tlsText_total obj keys :
  forallb (fun k => isWellFormed (ToString (Get obj k))) keys = true ->
  exists t, tlsText obj keys = Ok t.
Proof.
  induction keys as [|k keys IH]; cbn [forallb tlsText]; intros H.
  - exists []; reflexivity.
  - apply andb_true_iff in H. destruct H as [Hk Hrest].
    destruct (IH Hrest) as [t ->].
    unfold tlsValue. destruct (typeof_string (Get obj k)).
    + destruct (Encode_wellFormed _ Hk) as [e He].
      unfold encodeURIComponent. rewrite He. eexists; reflexivity.
    + eexists; reflexivity.
Qed.

Lemma tlsText_Throw obj keys e :
  tlsText obj keys = Throw e ->
  e = URIError /\
  forallb (fun k => isWellFormed (ToString (Get obj k))) keys = false.
Proof.
  induction keys as [|k keys IH]; cbn [forallb tlsText]; intros H.
  - discriminate.
  - apply bind_Throw in H. destruct H as [H|[v [Hv H]]].
    + unfold tlsValue in H. destruct (typeof_string (Get obj k)); [|discriminate].
      apply encodeURIComponent_Throw in H. destruct H as [-> ->]. now split.
    + apply bind_Throw in H. destruct H as [H|[t [_ H]]]; [|discriminate].
      destruct (IH H) as [-> ->]. split; [reflexivity | apply andb_false_r].
Qed.

Lemma segments_total o : encodable o = true -> exists uri, segments o = Ok uri.
Proof.
  unfold encodable, segments. intros H.
  apply andb_true_iff in H. destruct H as [H Hm].
  apply andb_true_iff in H. destruct H as [Hu Hp].
  destruct (Encode_wellFormed _ Hu) as [u Eu].
  unfold encodeURIComponent at 1. rewrite Eu. cbn [bind].
  assert (Ep : exists p, passwordSegment o = Ok p).
  { unfold passwordSegment. destruct (truthy (Options.password o)).
    - destruct (Encode_wellFormed _ Hp) as [p Ep].
      unfold encodeURIComponent. rewrite Ep. eexists; reflexivity.
    - eexists; reflexivity. }
  destruct Ep as [p ->]. cbn [bind].
  unfold tlsSegment, mechanismSegment, mechanismValue.
  destruct (truthy (Options.authMechanism o)); [|eexists; reflexivity].
  destruct (Options.tlsOptions o) as [obj|].
  - apply andb_true_iff in Hm. destruct Hm as [Ht Hmech].
    destruct (tlsText_total _ _ Ht) as [t ->]. cbn [bind].
    destruct (Encode_wellFormed _ Hmech) as [m Em].
    unfold encodeURIComponent. rewrite Em. eexists; reflexivity.
  - cbn [bind]. destruct (_ || _); eexists; reflexivity.
Qed.

Lemma segments_Throw o e :
  segments o = Throw e -> e = URIError /\ encodable o = false.
Proof.
  unfold segments, encodable. intros H.
  apply bind_Throw in H. destruct H as [H|[u [Hu H]]].
  { apply encodeURIComponent_Throw in H. destruct H as [-> ->]. now split. }
  apply bind_Throw in H. destruct H as [H|[p [Hp H]]].
  { unfold passwordSegment in H.
    destruct (truthy (Options.password o)); [|discriminate].
    apply bind_Throw in H. destruct H as [H|[x [_ H]]]; [|discriminate].
    apply encodeURIComponent_Throw in H. destruct H as [-> ->].
    split; [reflexivity|]. now rewrite andb_false_r. }
  apply bind_Throw in H. destruct H as [H|[t [Ht H]]].
  { unfold tlsSegment in H.
    destruct (truthy (Options.authMechanism o)); [|discriminate].
    destruct (Options.tlsOptions o) as [obj|]; [|discriminate].
    apply tlsText_Throw in H. destruct H as [-> ->].
    split; [reflexivity|]. now rewrite andb_false_r. }
  apply bind_Throw in H. destruct H as [H|[m [_ H]]]; [|discriminate].
  unfold mechanismSegment, mechanismValue in H.
  destruct (truthy (Options.authMechanism o)); [|discriminate].
  apply bind_Throw in H. destruct H as [H|[x [_ H]]]; [|discriminate].
  destruct (Options.tlsOptions o) as [obj|].
  - apply encodeURIComponent_Throw in H. destruct H as [-> ->].
    split; [reflexivity|]. now rewrite !andb_false_r.
  - destruct (_ || _); discriminate.
Qed.

End Totality.

(** ** Parameter text *)

Section ParameterText.
Context {K : Constants}.

Import STRINGS.

Lemma parameterText_app a b :
  parameterText a -> parameterText b -> parameterText (a ++ b).
Proof.
  intros [->|[a' ->]] Hb; [exact Hb|].
  right. now exists (a' ++ b).
Qed.

Lemma parameter_text k v : parameterText (parameter k v).
Proof. right. now exists (k ++ STRINGS.EQUAL_SIGN ++ v). Qed.

Lemma clientText_parameterText obj keys : parameterText (clientText obj keys).
Proof.
  destruct keys as [|k keys]; [now left|].
  cbn [clientText flat_map]. right.
  eexists. unfold parameter at 1. reflexivity.
Qed.

Lemma clientSegment_parameterText o : parameterText (clientSegment o).
Proof.
  unfold clientSegment. destruct (Options.clientOptions o).
  - apply clientText_parameterText.
  - now left.
Qed.

Lemma tlsText_parameterText obj keys t :
  tlsText obj keys = Ok t -> parameterText t.
Proof.
  destruct keys as [|k keys]; cbn [tlsText]; intros H.
  - injection H as <-. now left.
  - apply bind_Ok in H. destruct H as [e [_ H]].
    apply bind_Ok in H. destruct H as [rest [_ H]]. injection H as <-.
    right. eexists. unfold parameter. reflexivity.
Qed.

Lemma tlsSegment_parameterText o t : tlsSegment o = Ok t -> parameterText t.
Proof.
  unfold tlsSegment. destruct (truthy (Options.authMechanism o)).
  - destruct (Options.tlsOptions o) as [obj|].
    + apply tlsText_parameterText.
    + intros H. injection H as <-. now left.
  - intros H. injection H as <-. now left.
Qed.

Lemma mechanismSegment_parameterText o m :
  mechanismSegment o = Ok m -> parameterText m.
Proof.
  unfold mechanismSegment. destruct (truthy (Options.authMechanism o)); intros H.
  - apply bind_Ok in H. destruct H as [mv [_ H]]. injection H as <-.
    apply parameter_text.
  - injection H as <-. now left.
Qed.

Lemma occurs_before_parameterText p a x :
  ~ In 38 p -> parameterText x -> occurs p (a ++ x) -> occurs p a \/ occurs p x.
Proof.
  intros Hp [->|[x' ->]] H.
  - rewrite app_nil_r in H. now left.
  - apply occurs_split_at in H; [|exact Hp].
    destruct H as [H|H]; [now left|right].
    now apply (occurs_app_r p [38] x').
Qed.

Lemma passwordSegment_no_equals o p : passwordSegment o = Ok p -> ~ In 61 p.
Proof.
  unfold passwordSegment. destruct (truthy (Options.password o)); intros H.
  - apply bind_Ok in H. destruct H as [e [He H]]. injection H as <-.
    apply Encode_no_equals in He.
    cbn. intros [Hc|Hin]; [discriminate | contradiction].
  - injection H as <-. easy.
Qed.

(** Nothing before the validation source can complete a pattern that ends
    with an equals sign, unless the scheme prefix holds it. *)
Lemma occurs_before_validation q scheme u p :
  ~ In 61 u -> ~ In 61 p ->
  occurs (q ++ [61]) (scheme ++ u ++ p) -> occurs (q ++ [61]) scheme.
Proof.
  intros Hu Hp H. apply occurs_ends_before in H; [exact H|].
  intros Hin. apply in_app_or in Hin. tauto.
Qed.

Lemma occurs_around_host p X host tail :
  ~ In 64 p -> ~ In 47 p ->
  occurs p (X ++ AT ++ host ++ SLASH ++ tail) ->
  occurs p X \/ occurs p host \/ occurs p tail.
Proof.
  intros Hat Hslash H.
  change (X ++ AT ++ host ++ SLASH ++ tail) with (X ++ 64 :: (host ++ 47 :: tail)) in H.
  apply occurs_split_at in H; [|exact Hat]. destruct H as [H|H]; [now left|].
  apply occurs_split_at in H; [|exact Hslash]. tauto.
Qed.

Lemma occurs_validationSegment (o : Options.t) (tail : jsstring) :
  parameterText tail ->
  occurs authMechanism_equals (validationSegment o ++ tail) ->
  occurs authMechanism_equals (ToString (Options.host o))
  \/ occurs authMechanism_equals (ToString (Options.loginDatabase o))
  \/ occurs authMechanism_equals (ToString (Options.authSource o))
  \/ occurs authMechanism_equals tail.
Proof.
  intros Htail. unfold validationSegment.
  destruct (truthy (Options.loginDatabase o)); [|destruct (truthy (Options.authSource o))];
    intros H.
  - rewrite <- !app_assoc in H.
    apply (occurs_around_host _ []) in H; [|absent|absent].
    destruct H as [H|[H|H]].
    + apply occurs_nil in H. discriminate H.
    + tauto.
    + apply occurs_before_parameterText in H; [tauto|absent|exact Htail].
  - rewrite <- !app_assoc in H.
    change (AT ++ ToString (Options.host o) ++ lit "/?authSource="
               ++ ToString (Options.authSource o) ++ tail)
      with ([] ++ AT ++ ToString (Options.host o) ++ SLASH
               ++ (lit "?authSource=" ++ ToString (Options.authSource o) ++ tail)) in H.
    apply occurs_around_host in H; [|absent|absent].
    destruct H as [H|[H|H]].
    + apply occurs_nil in H. discriminate H.
    + tauto.
    + change (lit "?authSource=" ++ ToString (Options.authSource o) ++ tail)
        with (63 :: 97 :: 117 :: 116 :: 104 :: 83 :: 111 :: 117 :: 114 :: 99 :: 101
                 :: 61 :: (ToString (Options.authSource o) ++ tail)) in H.
      skip_literal H.
      apply occurs_before_parameterText in H; [tauto|absent|exact Htail].
  - cbn [app] in H. tauto.
Qed.

End ParameterText.

(** ** Fields the constructor and the methods leave alone *)

Section Untouched.
Context {K : Constants} {D : Driver}.

(** Without [loginDatabase] and without [authSource] the constructor never
    reads [host]: whatever it holds, the result is the same. *)
Lemma host_unused_without_validation_source (o : Options.t) (h : value) :
  usesConnectionUri o = false ->
  truthy (Options.loginDatabase o) = false ->
  truthy (Options.authSource o) = false ->
  constructor (Options.set_host h o) = constructor o.
Proof.
  intros Hx Hl Ha.
  rewrite !constructor_derived by assumption.
  unfold segments, validationSegment. cbn [Options.set_host Options.loginDatabase
    Options.authSource Options.host Options.username].
  now rewrite Hl, Ha.
Qed.

Lemma connect_database (this : MongoManager) :
  _database (snd (connect this)) = _database this.
Proof.
  unfold connect, promise_catch, try_catch, call_connect, errorMessage.
  destruct (client_connect (_client this)) as [[[]|e] c]; reflexivity.
Qed.

Lemma closeConnection_outcome (this : MongoManager) :
  closeConnection this
  = (fst (client_close (_client this)),
     set__client (snd (client_close (_client this))) this).
Proof.
  unfold closeConnection, call_close.
  now destruct (client_close (_client this)).
Qed.

Lemma after_calls_client (n : nat) (this : MongoManager) :
  _client (after_calls n closeConnection this)
  = Nat.iter n (fun c => snd (client_close c)) (_client this).
Proof.
  revert this; induction n as [|n IH]; intros this; [reflexivity|].
  cbn [after_calls]. rewrite IH, closeConnection_outcome. cbn [snd set__client _client].
  symmetry. apply Nat.iter_succ_r.
Qed.

End Untouched.

(** * The constructor *)

Import STRINGS.

(** ** Runs on the sample configurations *)

(** The example of the spec: [{username: 'bob', password: 'p@ss', host:
    'h:27017', loginDatabase: 'db1'}]. *)
Example bob_db1_uri :
  constructor (K := mongodb_constants) (D := flagDriver) bob_db1
  = Ok (instance_of (lit "mongodb://bob:p%40ss@h:27017/db1")).
Proof. reflexivity. Qed.

Example bob_srv_uri :
  constructor (K := mongodb_constants) (D := flagDriver)
    (Options.set_svrString (VBool true) bob_db1)
  = Ok (instance_of (lit "mongodb+srv://bob:p%40ss@h:27017/db1")).
Proof. reflexivity. Qed.

Example bob_authSource_uri :
  constructor (K := mongodb_constants) (D := flagDriver)
    (Options.set_authSource (str "admin") bob)
  = Ok (instance_of (lit "mongodb://bob:p%40ss@h:27017/?authSource=admin")).
Proof. reflexivity. Qed.

Example bob_scram_uri :
  constructor (K := mongodb_constants) (D := flagDriver)
    (Options.set_authMechanism (str "SCRAM-SHA-256") bob_db1)
  = Ok (instance_of
          (lit "mongodb://bob:p%40ss@h:27017/db1&authMechanism=SCRAM-SHA-256")).
Proof. reflexivity. Qed.

Example bob_unknown_mechanism_uri :
  constructor (K := mongodb_constants) (D := flagDriver)
    (Options.set_authMechanism (str "PLAIN") bob_db1)
  = Ok (instance_of (lit "mongodb://bob:p%40ss@h:27017/db1&authMechanism=DEFAULT")).
Proof. reflexivity. Qed.

(** An empty [connectionUri] is falsy: the URI is derived. *)
Example empty_connectionUri_is_ignored :
  constructor (K := mongodb_constants) (D := flagDriver)
    (Options.set_connectionUri (str "") bob_db1)
  = Ok (instance_of (lit "mongodb://bob:p%40ss@h:27017/db1")).
Proof. reflexivity. Qed.

(** U+1F600, a surrogate pair, then "é", "€" and "A". *)
Example Encode_beyond_ascii :
  Encode [55357; 56832; 233; 8364; 65] = Ok (lit "%F0%9F%98%80%C3%A9%E2%82%ACA") /\
  decodeURIComponent (lit "%F0%9F%98%80%C3%A9%E2%82%ACA")
  = Some (Ok [55357; 56832; 233; 8364; 65]).
Proof. split; reflexivity. Qed.

(** Lower-case digits decode; an overlong form, an encoded surrogate and a
    truncated sequence do not. *)
Example decodeURIComponent_rejects :
  decodeURIComponent (lit "p%40ss%2fword") = Some (Ok (lit "p@ss/word")) /\
  decodeURIComponent (lit "%C0%80") = Some (Throw URIError) /\
  decodeURIComponent (lit "%ED%A0%80") = Some (Throw URIError) /\
  decodeURIComponent (lit "%E2%82") = Some (Throw URIError).
Proof. repeat split. Qed.

(** C1 (as amended).  A configuration without [connectionUri] in which
    [username] or [host] is missing is not rejected.  The constructor
    validates nothing: it returns an instance whenever the strings it
    percent-encodes are well formed, and its only failure is the URIError
    of [encodeURIComponent] on an ill-formed one. *)
Theorem incomplete_config_not_rejected {K : Constants} {D : Driver} (o : Options.t) :
  usesConnectionUri o = false ->
  Options.username o = VUndefined \/ Options.host o = VUndefined ->
  (encodable o = true -> exists uri, constructor o = Ok (instance_of uri)) /\
  (forall e, constructor o = Throw e -> e = URIError /\ encodable o = false).
Proof.
  intros Hx _. rewrite (constructor_derived o Hx). split.
  - intros He. destruct (segments_total o He) as [uri ->]. now exists uri.
  - intros e H. apply bind_Throw in H.
    destruct H as [H|[uri [_ H]]]; [now apply segments_Throw | discriminate].
Qed.

(** C1 as the spec states it fails on the empty configuration: nothing is
    provided, and the constructor returns an instance. *)
Lemma empty_config_is_accepted :
  usesConnectionUri Options.empty = false /\
  Options.username Options.empty = VUndefined /\
  Options.host Options.empty = VUndefined /\
  constructor (K := mongodb_constants) (D := flagDriver) Options.empty
  = Ok (instance_of (lit "mongodb://undefined")) /\
  ~ exists e, constructor (K := mongodb_constants) (D := flagDriver) Options.empty
              = Throw e.
Proof.
  repeat split; intros [e H]; discriminate H.
Qed.

Lemma incomplete_config_not_rejected_witness :
  exists uri,
    constructor (K := mongodb_constants) (D := flagDriver) Options.empty
    = Ok (instance_of uri).
Proof.
  refine (proj1 (incomplete_config_not_rejected
                   (K := mongodb_constants) (D := flagDriver) Options.empty _ _) _).
  - reflexivity.
  - left; reflexivity.
  - reflexivity.
Defined.

(** C2.  When [connectionUri] is a non-empty string, the constructor stores
    that very string as the instance's URI, and every other option is
    without effect: any two configurations with this [connectionUri] give
    the same instance. *)
Theorem connectionUri_verbatim {K : Constants} {D : Driver}
    (o : Options.t) (s : jsstring) :
  Options.connectionUri o = VString s -> s <> [] ->
  constructor o = Ok (instance_of s) /\
  connectionUri (instance_of s) = s /\
  forall o', Options.connectionUri o' = VString s -> constructor o' = constructor o.
Proof.
  intros Hs Hne.
  assert (Hex : forall o', Options.connectionUri o' = VString s ->
                           constructor o' = Ok (instance_of s)).
  { intros o' H'. rewrite constructor_explicit.
    - now rewrite H'.
    - unfold usesConnectionUri. rewrite H'. destruct s; [contradiction | reflexivity]. }
  split; [now apply Hex|]. split; [reflexivity|].
  intros o' H'. now rewrite !Hex.
Qed.

(** C2, at a configuration whose other fields are all set. *)
Lemma connectionUri_verbatim_witness :
  constructor (K := mongodb_constants) (D := flagDriver)
    (Options.set_connectionUri (str "mongodb://a:b@c/d") bob_x509)
  = Ok (instance_of (lit "mongodb://a:b@c/d")).
Proof.
  refine (proj1 (connectionUri_verbatim
                   (Options.set_connectionUri (str "mongodb://a:b@c/d") bob_x509)
                   (lit "mongodb://a:b@c/d") _ _)).
  - reflexivity.
  - discriminate.
Defined.

(** C3 (as amended).  With [loginDatabase] a non-empty string, the URI holds
    "@<host>/<loginDatabase>", and [authSource] is never read: whatever it is
    set to, the constructor returns the same instance.  The text
    "authSource=" is in the URI only if it is in the scheme prefix, in
    [host], in [loginDatabase], or in the parameters written after them. *)
Theorem loginDatabase_takes_precedence {K : Constants} {D : Driver}
    (o : Options.t) (l : jsstring) (m : MongoManager) :
  usesConnectionUri o = false ->
  Options.loginDatabase o = VString l -> l <> [] ->
  constructor o = Ok m ->
  occurs (AT ++ ToString (Options.host o) ++ SLASH ++ l) (connectionUri m) /\
  (forall a, constructor (Options.set_authSource a o) = Ok m) /\
  (forall mech t,
     mechanismSegment o = Ok mech -> tlsSegment o = Ok t ->
     ~ occurs authSource_equals (schemePrefix o) ->
     ~ occurs authSource_equals (ToString (Options.host o)) ->
     ~ occurs authSource_equals l ->
     ~ occurs authSource_equals (mech ++ t ++ clientSegment o) ->
     ~ occurs authSource_equals (connectionUri m)).
Proof.
  intros Hx Hl Hne Hm.
  assert (Ht : truthy (Options.loginDatabase o) = true).
  { rewrite Hl. destruct l; [contradiction | reflexivity]. }
  destruct (constructor_segments o m Hx Hm) as [u [p [t [mech [Hu [Hp [Htls [Hmech E]]]]]]]].
  assert (Ev : validationSegment o = AT ++ ToString (Options.host o) ++ SLASH ++ l).
  { unfold validationSegment. now rewrite Ht, Hl. }
  rewrite Ev in E.
  split; [|split].
  - exists (schemePrefix o ++ u ++ p), (mech ++ t ++ clientSegment o).
    rewrite E. now rewrite <- !app_assoc.
  - intros a. rewrite <- Hm.
    rewrite !constructor_derived by assumption.
    unfold segments, validationSegment.
    cbn [Options.set_authSource Options.loginDatabase Options.authSource
         Options.host Options.username].
    now rewrite Ht.
  - intros mech' t' Hmech' Htls' Hs Hh Hdb Hq Hocc.
    rewrite Hmech in Hmech'. injection Hmech' as <-.
    rewrite Htls in Htls'. injection Htls' as <-.
    rewrite E in Hocc.
    replace (schemePrefix o ++ u ++ p
               ++ (AT ++ ToString (Options.host o) ++ SLASH ++ l)
               ++ mech ++ t ++ clientSegment o)
      with ((schemePrefix o ++ u ++ p)
              ++ AT ++ ToString (Options.host o) ++ SLASH
              ++ (l ++ mech ++ t ++ clientSegment o)) in Hocc
      by now rewrite <- !app_assoc.
    apply occurs_around_host in Hocc; [|absent|absent].
    destruct Hocc as [Hocc|[Hocc|Hocc]].
    + apply (occurs_before_validation (lit "authSource")) in Hocc.
      * contradiction.
      * now apply (Encode_no_equals _ _ Hu).
      * now apply (passwordSegment_no_equals o).
    + contradiction.
    + apply occurs_before_parameterText in Hocc; [tauto|absent|].
      apply parameterText_app; [now apply (mechanismSegment_parameterText o)|].
      apply parameterText_app; [now apply (tlsSegment_parameterText o)|].
      apply clientSegment_parameterText.
Qed.

(** C3 as stated fails on [bob_db1_admin]: [loginDatabase] is a non-empty
    string and the URI holds "authSource=". *)
Lemma loginDatabase_may_carry_authSource :
  usesConnectionUri bob_db1_admin = false /\
  Options.loginDatabase bob_db1_admin = str "db1?authSource=admin" /\
  constructor (K := mongodb_constants) (D := flagDriver) bob_db1_admin
  = Ok (instance_of (lit "mongodb://bob:p%40ss@h:27017/db1?authSource=admin")) /\
  occurs authSource_equals (lit "mongodb://bob:p%40ss@h:27017/db1?authSource=admin").
Proof.
  repeat split. apply occursb_spec. reflexivity.
Qed.

Lemma loginDatabase_takes_precedence_witness :
  occurs (lit "@h:27017/db1") (lit "mongodb://bob:p%40ss@h:27017/db1") /\
  (forall a,
     constructor (K := mongodb_constants) (D := flagDriver)
       (Options.set_authSource a bob_db1)
     = Ok (instance_of (lit "mongodb://bob:p%40ss@h:27017/db1"))) /\
  ~ occurs authSource_equals (lit "mongodb://bob:p%40ss@h:27017/db1").
Proof.
  pose proof (loginDatabase_takes_precedence
                (K := mongodb_constants) (D := flagDriver) bob_db1 (lit "db1")
                (instance_of (lit "mongodb://bob:p%40ss@h:27017/db1"))
                eq_refl eq_refl ltac:(discriminate) eq_refl) as [H1 [H2 H3]].
  split; [exact H1|]. split; [exact H2|].
  apply (H3 [] [] eq_refl eq_refl); apply not_occurs; reflexivity.
Defined.

(** C4 (as amended).  With [authMechanism] set and [tlsOptions] provided, the
    URI ends with three segments, each written once and in this order: the
    parameter "&authMechanism=<encoded mechanism>", then the TLS parameters
    in key order, then the client options.  The mechanism comes before the
    TLS parameters, not after them. *)
Theorem mechanism_then_tls_then_clientOptions {K : Constants} {D : Driver}
    (o : Options.t) (obj : object) (m : MongoManager) :
  usesConnectionUri o = false ->
  truthy (Options.authMechanism o) = true ->
  Options.tlsOptions o = Some obj ->
  constructor o = Ok m ->
  exists u p mech t,
    encodeURIComponent (Options.username o) = Ok u /\
    passwordSegment o = Ok p /\
    encodeURIComponent (Options.authMechanism o) = Ok mech /\
    tlsText obj (Object_keys obj) = Ok t /\
    connectionUri m =
      (schemePrefix o ++ u ++ p ++ validationSegment o)
        ++ parameter CLIENT_PARAMETERS.AUTH_MECHANISM mech
        ++ t
        ++ clientSegment o.
Proof.
  intros Hx Hm Ht H.
  destruct (constructor_segments o m Hx H) as [u [p [t [mech [Hu [Hp [Htls [Hmech E]]]]]]]].
  unfold tlsSegment in Htls. rewrite Hm, Ht in Htls.
  unfold mechanismSegment, mechanismValue in Hmech. rewrite Hm, Ht in Hmech.
  apply bind_Ok in Hmech. destruct Hmech as [mv [Hmv Hmech]]. injection Hmech as <-.
  exists u, p, mv, t. repeat split; try assumption.
  rewrite E. now rewrite <- !app_assoc.
Qed.

(** C4 as stated fails on [bob_x509]: the TLS parameters do not precede the
    mechanism parameter, they follow it. *)
Lemma tls_parameters_follow_mechanism :
  usesConnectionUri bob_x509 = false /\
  truthy (Options.authMechanism bob_x509) = true /\
  Options.tlsOptions bob_x509 <> None /\
  tlsSegment bob_x509 = Ok (lit "&tls=true&tlsCAFile=%2Fetc%2Fca.pem") /\
  mechanismSegment (K := mongodb_constants) bob_x509
  = Ok (lit "&authMechanism=MONGODB-X509") /\
  constructor (K := mongodb_constants) (D := flagDriver) bob_x509
  = Ok (instance_of
          (lit "mongodb://bob:p%40ss@h:27017/db1&authMechanism=MONGODB-X509&tls=true&tlsCAFile=%2Fetc%2Fca.pem&w=majority")) /\
  ~ precedes (lit "&tls=true&tlsCAFile=%2Fetc%2Fca.pem")
             (lit "&authMechanism=MONGODB-X509")
             (lit "mongodb://bob:p%40ss@h:27017/db1&authMechanism=MONGODB-X509&tls=true&tlsCAFile=%2Fetc%2Fca.pem&w=majority").
Proof.
  repeat split; try discriminate.
  apply not_precedes. vm_compute. reflexivity.
Qed.

Lemma mechanism_then_tls_then_clientOptions_witness :
  exists u p mech t,
    encodeURIComponent (Options.username bob_x509) = Ok u /\
    passwordSegment bob_x509 = Ok p /\
    encodeURIComponent (Options.authMechanism bob_x509) = Ok mech /\
    tlsText [(lit "tls", VBool true); (lit "tlsCAFile", str "/etc/ca.pem")]
            [lit "tls"; lit "tlsCAFile"] = Ok t /\
    lit "mongodb://bob:p%40ss@h:27017/db1&authMechanism=MONGODB-X509&tls=true&tlsCAFile=%2Fetc%2Fca.pem&w=majority"
    = (schemePrefix (K := mongodb_constants) bob_x509 ++ u ++ p
         ++ validationSegment bob_x509)
        ++ parameter STRINGS.CLIENT_PARAMETERS.AUTH_MECHANISM mech
        ++ t
        ++ clientSegment bob_x509.
Proof.
  refine (mechanism_then_tls_then_clientOptions
            (K := mongodb_constants) (D := flagDriver) bob_x509
            [(lit "tls", VBool true); (lit "tlsCAFile", str "/etc/ca.pem")]
            (instance_of
               (lit "mongodb://bob:p%40ss@h:27017/db1&authMechanism=MONGODB-X509&tls=true&tlsCAFile=%2Fetc%2Fca.pem&w=majority"))
            _ _ _ _); reflexivity.
Defined.

(** C5, on [{username: 'bob', password: 'p@ss', host: 'h:27017'}]: neither
    [loginDatabase] nor [authSource] is supplied, and the host is nowhere in
    the URI the constructor stores. *)
Theorem host_missing_from_uri :
  usesConnectionUri bob = false /\
  truthy (Options.loginDatabase bob) = false /\
  truthy (Options.authSource bob) = false /\
  Options.host bob = str "h:27017" /\
  constructor (K := mongodb_constants) (D := flagDriver) bob
  = Ok (instance_of (lit "mongodb://bob:p%40ss")) /\
  ~ occurs (lit "h:27017") (lit "mongodb://bob:p%40ss").
Proof.
  repeat split. apply not_occurs. vm_compute. reflexivity.
Qed.

(** C6 (as amended).  With [authMechanism] absent the constructor writes no
    mechanism parameter and does not read [tlsOptions]: the URI is the scheme
    prefix, the user name, the password segment, the validation source and
    the client options.  The text "authMechanism=" is in it only if it is in
    the scheme prefix, in [host], [loginDatabase] or [authSource], or in the
    text of the client options. *)
Theorem no_mechanism_parameter_written {K : Constants} {D : Driver}
    (o : Options.t) (m : MongoManager) :
  usesConnectionUri o = false ->
  truthy (Options.authMechanism o) = false ->
  constructor o = Ok m ->
  (exists u p,
     encodeURIComponent (Options.username o) = Ok u /\
     passwordSegment o = Ok p /\
     connectionUri m
     = schemePrefix o ++ u ++ p ++ validationSegment o ++ clientSegment o) /\
  (forall tls, constructor (Options.set_tlsOptions tls o) = Ok m) /\
  (~ occurs authMechanism_equals (schemePrefix o) ->
   ~ occurs authMechanism_equals (ToString (Options.host o)) ->
   ~ occurs authMechanism_equals (ToString (Options.loginDatabase o)) ->
   ~ occurs authMechanism_equals (ToString (Options.authSource o)) ->
   ~ occurs authMechanism_equals (clientSegment o) ->
   ~ occurs authMechanism_equals (connectionUri m)).
Proof.
  intros Hx Hmech Hm.
  destruct (constructor_segments o m Hx Hm) as [u [p [t [mech [Hu [Hp [Htls [Hms E]]]]]]]].
  unfold tlsSegment in Htls. rewrite Hmech in Htls. injection Htls as <-.
  unfold mechanismSegment in Hms. rewrite Hmech in Hms. injection Hms as <-.
  cbn [app] in E.
  split; [|split].
  - exists u, p. now repeat split.
  - intros tls. rewrite <- Hm.
    rewrite !constructor_derived by assumption.
    unfold segments, tlsSegment, mechanismSegment.
    cbn [Options.set_tlsOptions Options.authMechanism Options.username].
    now rewrite Hmech.
  - intros Hs Hh Hdb Has Hc Hocc. rewrite E in Hocc.
    replace (schemePrefix o ++ u ++ p ++ validationSegment o ++ clientSegment o)
      with ((schemePrefix o ++ u ++ p) ++ validationSegment o ++ clientSegment o)
      in Hocc by now rewrite <- !app_assoc.
    assert (Hcases : validationSegment o = []
                     \/ exists v, validationSegment o = 64 :: v).
    { unfold validationSegment.
      destruct (truthy (Options.loginDatabase o)); [right; eexists; reflexivity|].
      destruct (truthy (Options.authSource o)); [right; eexists; reflexivity|].
      now left. }
    assert (Hleft : ~ occurs authMechanism_equals (schemePrefix o ++ u ++ p)).
    { intros H. apply (occurs_before_validation (lit "authMechanism")) in H.
      - contradiction.
      - now apply (Encode_no_equals _ _ Hu).
      - now apply (passwordSegment_no_equals o). }
    assert (Hright : ~ occurs authMechanism_equals (validationSegment o ++ clientSegment o)).
    { intros H. apply occurs_validationSegment in H;
        [tauto | apply clientSegment_parameterText]. }
    destruct Hcases as [Ev|[v Ev]].
    + rewrite Ev in Hocc, Hright. cbn [app] in Hocc, Hright.
      apply occurs_before_parameterText in Hocc;
        [tauto | absent | apply clientSegment_parameterText].
    + rewrite Ev in Hocc, Hright. cbn [app] in Hocc.
      apply occurs_split_at in Hocc; [|absent].
      destruct Hocc as [Hocc|Hocc]; [contradiction|].
      apply Hright. now apply (occurs_app_r _ [64]).
Qed.

(** C6 as stated fails on [bob_client_mechanism]: [authMechanism] is absent
    and the URI holds "authMechanism=", written by the client options. *)
Lemma clientOptions_may_name_authMechanism :
  usesConnectionUri bob_client_mechanism = false /\
  Options.authMechanism bob_client_mechanism = VUndefined /\
  constructor (K := mongodb_constants) (D := flagDriver) bob_client_mechanism
  = Ok (instance_of
          (lit "mongodb://bob:p%40ss@h:27017/db1&authMechanism=SCRAM-SHA-1")) /\
  occurs authMechanism_equals
    (lit "mongodb://bob:p%40ss@h:27017/db1&authMechanism=SCRAM-SHA-1").
Proof.
  repeat split. apply occursb_spec. reflexivity.
Qed.

Lemma no_mechanism_parameter_written_witness :
  ~ occurs authMechanism_equals (lit "mongodb://bob:p%40ss@h:27017/db1").
Proof.
  refine (proj2 (proj2 (no_mechanism_parameter_written
                   (K := mongodb_constants) (D := flagDriver) bob_db1
                   (instance_of (lit "mongodb://bob:p%40ss@h:27017/db1"))
                   eq_refl eq_refl eq_refl)) _ _ _ _ _);
    apply not_occurs; reflexivity.
Defined.

(** C7.  A non-empty password string is written, percent-encoded, between
    the colon that follows the encoded user name and the rest of the URI,
    and [decodeURIComponent] of that piece is the password itself, reserved
    characters included. *)
Theorem password_round_trip {K : Constants} {D : Driver}
    (o : Options.t) (pw : jsstring) (m : MongoManager) :
  usesConnectionUri o = false ->
  Options.password o = VString pw -> pw <> [] ->
  Forall is_code_unit pw ->
  constructor o = Ok m ->
  exists u e rest,
    encodeURIComponent (Options.username o) = Ok u /\
    encodeURIComponent (VString pw) = Ok e /\
    connectionUri m = schemePrefix o ++ u ++ COLON ++ e ++ rest /\
    decodeURIComponent e = Some (Ok pw).
Proof.
  intros Hx Hpw Hne Hcu Hm.
  destruct (constructor_segments o m Hx Hm) as [u [p [t [mech [Hu [Hp [Htls [Hmech E]]]]]]]].
  unfold passwordSegment in Hp. rewrite Hpw in Hp.
  assert (Ht : truthy (VString pw) = true) by (destruct pw; [contradiction | reflexivity]).
  rewrite Ht in Hp.
  apply bind_Ok in Hp. destruct Hp as [e [He Hp]]. injection Hp as <-.
  exists u, e, (validationSegment o ++ mech ++ t ++ clientSegment o).
  split; [exact Hu|]. split; [exact He|]. split.
  - rewrite E. reflexivity.
  - now apply (decodeURIComponent_Encode pw e Hcu).
Qed.

(** [{username: 'bob', password: 'p@ss/word', host: 'h:27017', loginDatabase:
    'db1'}] *)
Lemma password_round_trip_witness :
  exists u e rest,
    encodeURIComponent (str "bob") = Ok u /\
    encodeURIComponent (str "p@ss/word") = Ok e /\
    lit "mongodb://bob:p%40ss%2Fword@h:27017/db1"
    = lit "mongodb://" ++ u ++ STRINGS.COLON ++ e ++ rest /\
    decodeURIComponent e = Some (Ok (lit "p@ss/word")).
Proof.
  refine (password_round_trip (K := mongodb_constants) (D := flagDriver)
            (Options.set_password (str "p@ss/word") bob_db1) (lit "p@ss/word")
            (instance_of (lit "mongodb://bob:p%40ss%2Fword@h:27017/db1"))
            _ _ _ _ _).
  - reflexivity.
  - reflexivity.
  - discriminate.
  - repeat constructor.
  - reflexivity.
Defined.




(** * The methods *)

(** With a database selected, the setter of [collection] does what the
    driver's [collection] does: it stores the collection, or wraps what the
    driver threw. *)
Lemma set_collection_with_database {D : Driver}
    (this : MongoManager) (db : Db) (collectionName : jsstring) :
  _database this = Some db ->
  set_collection collectionName this
  = match db_collection db collectionName with
    | Ok c => (Ok tt, set__collection c this)
    | Throw e => (Throw (Error e), this)
    end.
Proof.
  intros H. unfold set_collection, try_catch, errorMessage. rewrite H.
  now destruct (db_collection db collectionName).
Qed.

(** C8 (as amended).  On an instance with no database selected, the setter
    of [collection] throws: reading [collection] of the undefined
    [_database] raises a TypeError, which the [catch] hands to
    [errorMessage], and that throws the generic [new Error(...)]; the class
    has no error of its own for this case.  The instance is left as it was.
    Having connected first changes nothing, since [connect] selects no
    database. *)
Theorem set_collection_without_database {D : Driver}
    (this : MongoManager) (collectionName : jsstring) :
  _database this = None ->
  set_collection collectionName this = (Throw (Error TypeError), this) /\
  set_collection collectionName (snd (connect this))
  = (Throw (Error TypeError), snd (connect this)).
Proof.
  assert (H : forall m, _database m = None ->
                        set_collection collectionName m = (Throw (Error TypeError), m)).
  { intros m Hm. unfold set_collection, try_catch, errorMessage. now rewrite Hm. }
  intros Hd. split.
  - now apply H.
  - apply H. now rewrite connect_database.
Qed.

Lemma set_collection_without_database_witness :
  set_collection (D := flagDriver) (lit "users") fresh_instance
  = (Throw (Error TypeError), fresh_instance) /\
  set_collection (D := flagDriver) (lit "users") (snd (connect fresh_instance))
  = (Throw (Error TypeError), snd (connect fresh_instance)).
Proof.
  apply (set_collection_without_database (D := flagDriver) fresh_instance (lit "users")).
  reflexivity.
Defined.

(** C8 as stated fails: what the setter throws without a database is no
    error kept for that case.  The very same value is thrown with a database
    selected, when the driver's [collection] throws a TypeError, so no error
    of the setter tells that no database was selected. *)
Lemma no_database_error_is_not_dedicated :
  _database fresh_instance = None /\
  fst (set_collection (D := flagDriver) (lit "users") fresh_instance)
  = Throw (Error TypeError) /\
  _database typeError_instance = Some (lit "app") /\
  fst (set_collection (D := typeErrorDriver) (lit "users") typeError_instance)
  = Throw (Error TypeError) /\
  ~ exists e : exn,
      fst (set_collection (D := flagDriver) (lit "users") fresh_instance) = Throw e /\
      forall (D : Driver) (this : MongoManager) (collectionName : jsstring),
        fst (set_collection collectionName this) = Throw e -> _database this = None.
Proof.
  repeat split.
  intros [e [He Honly]].
  injection He as <-.
  specialize (Honly typeErrorDriver typeError_instance (lit "users") eq_refl).
  discriminate Honly.
Qed.

(** C9 (as amended).  [closeConnection] keeps no record of an earlier close.
    Every call, the second as much as the first, is the driver's [close] on
    the current client: it throws exactly what that call throws and touches
    no other field.  So when the driver's [close] does not throw, no call
    of [closeConnection] does, however many came before. *)
Theorem closeConnection_is_the_drivers_close {D : Driver} (this : MongoManager) :
  (forall n,
     fst (closeConnection (after_calls n closeConnection this))
     = fst (client_close (Nat.iter n (fun c => snd (client_close c)) (_client this)))
     /\ connectionUri (after_calls n closeConnection this) = connectionUri this
     /\ _database (after_calls n closeConnection this) = _database this
     /\ _collection (after_calls n closeConnection this) = _collection this) /\
  ((forall c, fst (client_close c) = Ok tt) ->
   forall n, fst (closeConnection (after_calls n closeConnection this)) = Ok tt).
Proof.
  assert (H : forall n,
     fst (closeConnection (after_calls n closeConnection this))
     = fst (client_close (Nat.iter n (fun c => snd (client_close c)) (_client this)))).
  { intros n. now rewrite closeConnection_outcome, after_calls_client. }
  split.
  - intros n. split; [apply H|].
    revert this H; induction n as [|n IH]; intros this H; [now repeat split|].
    cbn [after_calls].
    assert (E : snd (closeConnection this)
                = set__client (snd (client_close (_client this))) this)
      by now rewrite closeConnection_outcome.
    rewrite E.
    destruct (IH (set__client (snd (client_close (_client this))) this)) as [H1 [H2 H3]].
    { intros k. now rewrite closeConnection_outcome, after_calls_client. }
    now rewrite H1, H2, H3.
  - intros Hok n. now rewrite H, Hok.
Qed.

(** C9 as stated fails over [flagDriver]: the first close returns, and so
    does the second. *)
Lemma second_close_returns :
  fst (closeConnection (D := flagDriver) fresh_instance) = Ok tt /\
  fst (closeConnection (D := flagDriver)
         (snd (closeConnection (D := flagDriver) fresh_instance))) = Ok tt /\
  ~ exists e,
      fst (closeConnection (D := flagDriver)
             (snd (closeConnection (D := flagDriver) fresh_instance))) = Throw e.
Proof.
  repeat split. intros [e H]. discriminate H.
Qed.

Lemma closeConnection_is_the_drivers_close_witness :
  fst (closeConnection (D := flagDriver)
         (after_calls 1 (closeConnection (D := flagDriver)) fresh_instance)) = Ok tt.
Proof.
  refine (proj2 (closeConnection_is_the_drivers_close (D := flagDriver) fresh_instance)
            _ 1%nat).
  intros c. reflexivity.
Defined.

(** * More of the constructor *)

(** ** Comparing strings *)

Lemma jsstring_eqb_spec a b : jsstring_eqb a b = true <-> a = b.
Proof.
  unfold jsstring_eqb. destruct (list_eq_dec N.eq_dec a b); split; congruence.
Qed.

Lemma strict_eq_string_spec v s : strict_eq_string v s = true <-> v = VString s.
Proof.
  destruct v as [| |b|t]; cbn [strict_eq_string]; try (split; discriminate).
  rewrite jsstring_eqb_spec. split; congruence.
Qed.

(** ** The alphabet of an encoded string *)





Lemma ToString_code_units v :
  (forall s, v = VString s -> Forall is_code_unit s) -> Forall is_code_unit (ToString v).
Proof.
  intros H. destruct v as [| |[]|s]; try (repeat constructor).
  now apply H.
Qed.

(** ** Parameters, key by key *)

Section KeyByKey.
Context {K : Constants}.

Lemma clientText_In obj keys k :
  In k keys -> occurs (parameter k (ToString (Get obj k))) (clientText obj keys).
Proof.
  induction keys as [|k' keys IH]; [contradiction|].
  cbn [clientText flat_map]. fold (clientText obj keys).
  intros [->|Hin].
  - exists [], (clientText obj keys). reflexivity.
  - apply occurs_app_r. now apply IH.
Qed.

Lemma tlsText_In obj keys t k :
  tlsText obj keys = Ok t -> In k keys ->
  exists e, tlsValue (Get obj k) = Ok e /\ occurs (parameter k e) t.
Proof.
  revert t; induction keys as [|k' keys IH]; intros t H Hin; [contradiction|].
  cbn [tlsText] in H.
  apply bind_Ok in H. destruct H as [e [He H]].
  apply bind_Ok in H. destruct H as [rest [Hrest H]]. injection H as <-.
  destruct Hin as [->|Hin].
  - exists e. split; [exact He|]. exists [], rest. reflexivity.
  - destruct (IH rest Hrest Hin) as [e' [He' Hocc]].
    exists e'. split; [exact He'|].
    exact (occurs_app_r _ (parameter k' e) rest Hocc).
Qed.

End KeyByKey.



(** ** The validation source *)

(** X1.  Without a [loginDatabase] (absent, null, false or the empty
    string) and with [authSource] a non-empty string, the constructor writes
    "@<host>/?authSource=<authSource>" right after the credentials, with no
    database path, and what [loginDatabase] holds makes no difference. *)
Theorem authSource_written_without_loginDatabase {K : Constants} {D : Driver}
    (o : Options.t) (a : jsstring) (m : MongoManager) :
  usesConnectionUri o = false ->
  truthy (Options.loginDatabase o) = false ->
  Options.authSource o = VString a -> a <> [] ->
  constructor o = Ok m ->
  (exists u p mech t,
     encodeURIComponent (Options.username o) = Ok u /\
     passwordSegment o = Ok p /\
     mechanismSegment o = Ok mech /\
     tlsSegment o = Ok t /\
     connectionUri m
     = (schemePrefix o ++ u ++ p)
         ++ (AT ++ ToString (Options.host o) ++ lit "/?authSource=" ++ a)
         ++ mech ++ t ++ clientSegment o) /\
  (forall l, truthy l = false ->
             constructor (Options.set_loginDatabase l o) = Ok m).
Proof.
  intros Hx Hl Ha Hne Hm.
  assert (Hta : truthy (Options.authSource o) = true).
  { rewrite Ha. destruct a; [contradiction | reflexivity]. }
  destruct (constructor_segments o m Hx Hm) as [u [p [t [mech [Hu [Hp [Htls [Hmech E]]]]]]]].
  split.
  - exists u, p, mech, t. repeat split; try assumption.
    rewrite E. unfold validationSegment. rewrite Hl, Hta, Ha.
    now rewrite <- !app_assoc.
  - intros l Hfalsy. rewrite <- Hm.
    rewrite !constructor_derived by assumption.
    unfold segments, validationSegment.
    cbn [Options.set_loginDatabase Options.loginDatabase Options.authSource
         Options.host Options.username].
    now rewrite Hl, Hfalsy.
Qed.

Lemma authSource_written_without_loginDatabase_witness :
  exists u p mech t,
    encodeURIComponent (str "bob") = Ok u /\
    passwordSegment (Options.set_authSource (str "admin") bob) = Ok p /\
    mechanismSegment (K := mongodb_constants)
      (Options.set_authSource (str "admin") bob) = Ok mech /\
    tlsSegment (Options.set_authSource (str "admin") bob) = Ok t /\
    lit "mongodb://bob:p%40ss@h:27017/?authSource=admin"
    = (lit "mongodb://" ++ u ++ p)
        ++ (AT ++ lit "h:27017" ++ lit "/?authSource=" ++ lit "admin")
        ++ mech ++ t ++ [].
Proof.
  refine (proj1 (authSource_written_without_loginDatabase
                   (K := mongodb_constants) (D := flagDriver)
                   (Options.set_authSource (str "admin") bob) (lit "admin")
                   (instance_of (lit "mongodb://bob:p%40ss@h:27017/?authSource=admin"))
                   _ _ _ _ _)).
  - reflexivity.
  - reflexivity.
  - reflexivity.
  - discriminate.
  - reflexivity.
Defined.

(** ** The mechanism without TLS options *)

(** X2.  Without [tlsOptions] the mechanism written to the URI is always one
    of the recognised names: the given one when it is recognised, DEFAULT
    for anything else that is truthy.  The parameter follows the validation
    source directly and the client options follow it. *)
Theorem mechanism_without_tls_is_recognised {K : Constants} {D : Driver}
    (o : Options.t) (m : MongoManager) :
  usesConnectionUri o = false ->
  truthy (Options.authMechanism o) = true ->
  Options.tlsOptions o = None ->
  constructor o = Ok m ->
  exists u p v,
    encodeURIComponent (Options.username o) = Ok u /\
    passwordSegment o = Ok p /\
    In v recognisedMechanisms /\
    (forall s, Options.authMechanism o = VString s ->
               In s recognisedMechanisms -> v = s) /\
    ((forall s, In s recognisedMechanisms -> Options.authMechanism o <> VString s) ->
     v = AUTH_METHODS.DEFAULT) /\
    connectionUri m
    = (schemePrefix o ++ u ++ p ++ validationSegment o)
        ++ parameter CLIENT_PARAMETERS.AUTH_MECHANISM v
        ++ clientSegment o.
Proof.
  intros Hx Hmech Htls Hm.
  destruct (constructor_segments o m Hx Hm) as [u [p [t [mech [Hu [Hp [Ht [Hms E]]]]]]]].
  unfold tlsSegment in Ht. rewrite Hmech, Htls in Ht. injection Ht as <-.
  unfold mechanismSegment, mechanismValue in Hms. rewrite Hmech, Htls in Hms.
  cbn [app] in E.
  destruct (strict_eq_string (Options.authMechanism o) AUTH_METHODS.DEFAULT
            || strict_eq_string (Options.authMechanism o) AUTH_METHODS.SCRAM_256
            || strict_eq_string (Options.authMechanism o) AUTH_METHODS.SCRAM_1
            || strict_eq_string (Options.authMechanism o) AUTH_METHODS_TLS) eqn:Erec;
    cbn [bind] in Hms; injection Hms as <-.
  - assert (Hin : exists s, Options.authMechanism o = VString s
                            /\ In s recognisedMechanisms).
    { unfold recognisedMechanisms.
      repeat (apply orb_true_iff in Erec; destruct Erec as [Erec|Erec]);
        apply strict_eq_string_spec in Erec; eexists; (split; [exact Erec|]);
        cbn [In]; tauto. }
    destruct Hin as [s [Es Hin]].
    exists u, p, s. rewrite Es in E |- *. cbn [ToString] in E.
    repeat split; try assumption.
    + intros s' Es' _. congruence.
    + intros Hnone. exfalso. exact (Hnone s Hin eq_refl).
    + rewrite E. now rewrite <- !app_assoc.
  - exists u, p, AUTH_METHODS.DEFAULT.
    repeat split; try assumption.
    + unfold recognisedMechanisms. now left.
    + intros s Es Hin. exfalso.
      unfold recognisedMechanisms in Hin. cbn [In] in Hin.
      repeat (apply orb_false_iff in Erec; destruct Erec as [Erec ?]).
      assert (Hs : forall x, x = s -> strict_eq_string (Options.authMechanism o) x = true)
        by (intros x ->; now apply strict_eq_string_spec).
      destruct Hin as [Hin|[Hin|[Hin|[Hin|[]]]]]; apply Hs in Hin; congruence.
    + rewrite E. now rewrite <- !app_assoc.
Qed.

Lemma mechanism_without_tls_is_recognised_witness :
  exists u p v,
    encodeURIComponent (str "bob") = Ok u /\
    passwordSegment (Options.set_authMechanism (str "PLAIN") bob_db1) = Ok p /\
    In v (recognisedMechanisms (K := mongodb_constants)) /\
    (forall s, str "PLAIN" = VString s ->
               In s (recognisedMechanisms (K := mongodb_constants)) -> v = s) /\
    ((forall s, In s (recognisedMechanisms (K := mongodb_constants)) ->
                str "PLAIN" <> VString s) ->
     v = AUTH_METHODS.DEFAULT) /\
    lit "mongodb://bob:p%40ss@h:27017/db1&authMechanism=DEFAULT"
    = (lit "mongodb://" ++ u ++ p ++ lit "@h:27017/db1")
        ++ parameter CLIENT_PARAMETERS.AUTH_MECHANISM v
        ++ [].
Proof.
  refine (mechanism_without_tls_is_recognised
            (K := mongodb_constants) (D := flagDriver)
            (Options.set_authMechanism (str "PLAIN") bob_db1)
            (instance_of (lit "mongodb://bob:p%40ss@h:27017/db1&authMechanism=DEFAULT"))
            _ _ _ _); reflexivity.
Defined.

(** ** The credentials *)

(** X3.  A password that is absent, null, false or the empty string is left
    out altogether: no colon is written, the validation source follows the
    user name directly, and all such passwords give the same instance. *)
Theorem falsy_password_is_left_out {K : Constants} {D : Driver}
    (o : Options.t) (m : MongoManager) :
  usesConnectionUri o = false ->
  truthy (Options.password o) = false ->
  constructor o = Ok m ->
  (exists u mech t,
     encodeURIComponent (Options.username o) = Ok u /\
     mechanismSegment o = Ok mech /\
     tlsSegment o = Ok t /\
     connectionUri m
     = schemePrefix o ++ u ++ validationSegment o ++ mech ++ t ++ clientSegment o) /\
  (forall v, truthy v = false -> constructor (Options.set_password v o) = Ok m).
Proof.
  intros Hx Hp Hm.
  destruct (constructor_segments o m Hx Hm) as [u [p [t [mech [Hu [Hps [Htls [Hmech E]]]]]]]].
  unfold passwordSegment in Hps. rewrite Hp in Hps. injection Hps as <-.
  split.
  - exists u, mech, t. now repeat split.
  - intros v Hv. rewrite <- Hm.
    rewrite !constructor_derived by assumption.
    unfold segments, passwordSegment.
    cbn [Options.set_password Options.password Options.username].
    now rewrite Hp, Hv.
Qed.

Lemma falsy_password_is_left_out_witness :
  constructor (K := mongodb_constants) (D := flagDriver)
    (Options.set_password VNull (Options.set_password (str "") bob_db1))
  = Ok (instance_of (lit "mongodb://bob@h:27017/db1")).
Proof.
  refine (proj2 (falsy_password_is_left_out
                   (K := mongodb_constants) (D := flagDriver)
                   (Options.set_password (str "") bob_db1)
                   (instance_of (lit "mongodb://bob@h:27017/db1")) _ _ _)
            VNull _);
    reflexivity.
Defined.



(** X5.  The URI begins with the scheme prefix and the percent-encoded user
    name, and decoding that piece gives back the text of the user name
    ("undefined", "null", "true" or "false" when it is no string). *)
Theorem username_round_trip {K : Constants} {D : Driver}
    (o : Options.t) (m : MongoManager) :
  usesConnectionUri o = false ->
  (forall s, Options.username o = VString s -> Forall is_code_unit s) ->
  constructor o = Ok m ->
  exists u rest,
    encodeURIComponent (Options.username o) = Ok u /\
    connectionUri m = schemePrefix o ++ u ++ rest /\
    decodeURIComponent u = Some (Ok (ToString (Options.username o))).
Proof.
  intros Hx Hun Hm.
  destruct (constructor_segments o m Hx Hm) as [u [p [t [mech [Hu [Hp [Htls [Hmech E]]]]]]]].
  exists u, (p ++ validationSegment o ++ mech ++ t ++ clientSegment o).
  split; [exact Hu|]. split; [exact E|].
  apply decodeURIComponent_Encode; [now apply ToString_code_units | exact Hu].
Qed.

Lemma username_round_trip_witness :
  exists u rest,
    encodeURIComponent (str "a@b") = Ok u /\
    lit "mongodb://a%40b:p%40ss@h:27017/db1" = lit "mongodb://" ++ u ++ rest /\
    decodeURIComponent u = Some (Ok (lit "a@b")).
Proof.
  refine (username_round_trip (K := mongodb_constants) (D := flagDriver)
            (Options.set_username (str "a@b") bob_db1)
            (instance_of (lit "mongodb://a%40b:p%40ss@h:27017/db1")) _ _ _).
  - reflexivity.
  - intros s H. injection H as <-. repeat constructor.
  - reflexivity.
Defined.

(** ** The options written as parameters *)

(** X6.  With [authMechanism] set, every key of [tlsOptions] is written as a
    parameter "&key=value": a string value percent-encoded, so that decoding
    gives it back, and any other value as its text. *)
Theorem tlsOptions_written_key_by_key {K : Constants} {D : Driver}
    (o : Options.t) (obj : object) (m : MongoManager) (k : jsstring) :
  usesConnectionUri o = false ->
  truthy (Options.authMechanism o) = true ->
  Options.tlsOptions o = Some obj ->
  constructor o = Ok m ->
  In k (Object_keys obj) ->
  exists e,
    occurs (AND ++ k ++ EQUAL_SIGN ++ e) (connectionUri m) /\
    (typeof_string (Get obj k) = false -> e = ToString (Get obj k)) /\
    (forall s, Get obj k = VString s ->
               encodeURIComponent (VString s) = Ok e /\
               (Forall is_code_unit s -> decodeURIComponent e = Some (Ok s))).
Proof.
  intros Hx Hmech Htls Hm Hin.
  destruct (constructor_segments o m Hx Hm) as [u [p [t [mech [Hu [Hp [Ht [Hms E]]]]]]]].
  unfold tlsSegment in Ht. rewrite Hmech, Htls in Ht.
  destruct (tlsText_In obj _ t k Ht Hin) as [e [He Hocc]].
  exists e. split; [|split].
  - rewrite E.
    apply (occurs_app_r _ (schemePrefix o)), (occurs_app_r _ u), (occurs_app_r _ p),
          (occurs_app_r _ (validationSegment o)), (occurs_app_r _ mech),
          occurs_app_l.
    exact Hocc.
  - intros Hty. unfold tlsValue in He. rewrite Hty in He. now injection He as <-.
  - intros s Hs. unfold tlsValue in He. rewrite Hs in He. cbn [typeof_string] in He.
    split; [exact He|]. intros Hcu. now apply decodeURIComponent_Encode.
Qed.

Lemma tlsOptions_written_key_by_key_witness :
  exists e,
    occurs (AND ++ lit "tlsCAFile" ++ EQUAL_SIGN ++ e)
      (lit "mongodb://bob:p%40ss@h:27017/db1&authMechanism=PLAIN&tlsCAFile=%2Fetc%2Fca.pem&tls=true") /\
    (typeof_string (str "/etc/ca.pem") = false -> e = lit "/etc/ca.pem") /\
    (forall s, str "/etc/ca.pem" = VString s ->
               encodeURIComponent (VString s) = Ok e /\
               (Forall is_code_unit s -> decodeURIComponent e = Some (Ok s))).
Proof.
  refine (tlsOptions_written_key_by_key
            (K := mongodb_constants) (D := flagDriver) bob_tls_plain
            [(lit "tlsCAFile", str "/etc/ca.pem"); (lit "tls", VBool true)]
            (instance_of
               (lit "mongodb://bob:p%40ss@h:27017/db1&authMechanism=PLAIN&tlsCAFile=%2Fetc%2Fca.pem&tls=true"))
            (lit "tlsCAFile") _ _ _ _ _).
  - reflexivity.
  - reflexivity.
  - reflexivity.
  - reflexivity.
  - left. reflexivity.
Defined.

(** X7.  The client options are written as they are, without encoding, one
    parameter "&key=value" per key in key order, and they are the last thing
    in the URI whichever way the mechanism was written. *)
Theorem clientOptions_written_last_and_verbatim {K : Constants} {D : Driver}
    (o : Options.t) (obj : object) (m : MongoManager) :
  usesConnectionUri o = false ->
  Options.clientOptions o = Some obj ->
  constructor o = Ok m ->
  (exists before,
     connectionUri m
     = before
         ++ flat_map (fun k => AND ++ k ++ EQUAL_SIGN ++ ToString (Get obj k))
              (Object_keys obj)) /\
  (forall k, In k (Object_keys obj) ->
             occurs (AND ++ k ++ EQUAL_SIGN ++ ToString (Get obj k)) (connectionUri m)).
Proof.
  intros Hx Hc Hm.
  destruct (constructor_segments o m Hx Hm) as [u [p [t [mech [Hu [Hp [Ht [Hms E]]]]]]]].
  unfold clientSegment in E. rewrite Hc in E.
  split.
  - exists (schemePrefix o ++ u ++ p ++ validationSegment o ++ mech ++ t).
    rewrite E. unfold clientText, parameter. now rewrite <- !app_assoc.
  - intros k Hin. rewrite E.
    apply (occurs_app_r _ (schemePrefix o)), (occurs_app_r _ u), (occurs_app_r _ p),
          (occurs_app_r _ (validationSegment o)), (occurs_app_r _ mech),
          (occurs_app_r _ t).
    exact (clientText_In obj (Object_keys obj) k Hin).
Qed.

Lemma clientOptions_written_last_and_verbatim_witness :
  exists before,
    lit "mongodb://bob:p%40ss@h:27017/db1&w=majority&retryWrites=true"
    = before
        ++ flat_map
             (fun k => AND ++ k ++ EQUAL_SIGN
                         ++ ToString (Get [(lit "w", str "majority");
                                           (lit "retryWrites", VBool true)] k))
             [lit "w"; lit "retryWrites"].
Proof.
  refine (proj1 (clientOptions_written_last_and_verbatim
                   (K := mongodb_constants) (D := flagDriver) bob_client_options
                   [(lit "w", str "majority"); (lit "retryWrites", VBool true)]
                   (instance_of
                      (lit "mongodb://bob:p%40ss@h:27017/db1&w=majority&retryWrites=true"))
                   _ _ _)); reflexivity.
Defined.

(** ** A connectionUri that cannot be used *)

(** X8.  A [connectionUri] that is no string, or the empty string, is
    ignored without a word: the URI is derived from the other options, as if
    no [connectionUri] had been given. *)
Theorem unusable_connectionUri_is_ignored {K : Constants} {D : Driver}
    (o : Options.t) (v : value) :
  (forall s, v = VString s -> s = []) ->
  constructor (Options.set_connectionUri v o)
  = constructor (Options.set_connectionUri VUndefined o).
Proof.
  intros Hv.
  assert (Hx : usesConnectionUri (Options.set_connectionUri v o) = false).
  { unfold usesConnectionUri. cbn [Options.set_connectionUri Options.connectionUri].
    destruct v as [| |b|s]; try reflexivity.
    - apply andb_false_r.
    - now rewrite (Hv s eq_refl). }
  rewrite (constructor_derived _ Hx).
  rewrite (constructor_derived (Options.set_connectionUri VUndefined o) eq_refl).
  reflexivity.
Qed.

Lemma unusable_connectionUri_is_ignored_witness :
  constructor (K := mongodb_constants) (D := flagDriver)
    (Options.set_connectionUri (VBool true) bob_db1)
  = constructor (K := mongodb_constants) (D := flagDriver)
      (Options.set_connectionUri VUndefined bob_db1).
Proof.
  apply (unusable_connectionUri_is_ignored
           (K := mongodb_constants) (D := flagDriver) bob_db1 (VBool true)).
  discriminate.
Defined.

(** * More of the methods *)

Section MethodOutcomes.
Context {D : Driver} {W : AwaitedClose D}.

Lemma connect_outcome (this : MongoManager) :
  connect this
  = match client_connect (_client this) with
    | (Ok tt, c) => (Ok tt, set__client c this)
    | (Throw e, c) => (Throw (Error (Error e)), set__client c this)
    end.
Proof.
  unfold connect, promise_catch, try_catch, call_connect, errorMessage.
  destruct (client_connect (_client this)) as [[[]|e] c]; reflexivity.
Qed.

Lemma set_database_outcome (databaseName : jsstring) (this : MongoManager) :
  set_database databaseName this
  = match client_db (_client this) databaseName with
    | Ok d => (Ok tt, set__database d this)
    | Throw e => (Throw (Error e), this)
    end.
Proof.
  unfold set_database, try_catch, errorMessage.
  now destruct (client_db (_client this) databaseName).
Qed.

Lemma updateConnectionString_outcome (options : value) (this : MongoManager) :
  updateConnectionString options this
  = match await_client_close (_client this) with
    | (Throw e, c) => (Throw (Error e), set__client c this)
    | (Ok _, _) =>
        let uri := connectionUri this ++ ToString options in
        let renewed (c : Client) :=
          {| connectionUri := uri; _client := c;
             _database := _database this; _collection := _collection this |} in
        match client_connect (MongoClient uri) with
        | (Ok _, c) => (Ok tt, renewed c)
        | (Throw e, c) => (Throw (Error (Error (Error (Error e)))), renewed c)
        end
    end.
Proof.
  unfold updateConnectionString, try_catch, method_bind, await_close, promise_catch.
  destruct (await_client_close (_client this)) as [[[]|e] c]; [|reflexivity].
  unfold try_catch. rewrite connect_outcome.
  cbn [set__client set_connectionUri connectionUri _client _database _collection].
  destruct (client_connect (MongoClient (connectionUri this ++ ToString options)))
    as [[[]|e] c']; reflexivity.
Qed.

End MethodOutcomes.

(** ** Connecting and selecting *)

(** X9.  [connect] fails exactly when the driver's [connect] does, and then
    with the driver's error wrapped twice: once by the handler of the
    promise and once more by the surrounding [catch].  It changes the client
    and nothing else. *)
Theorem connect_wraps_the_error_twice {D : Driver} (this : MongoManager) :
  (forall e, fst (client_connect (_client this)) = Throw e ->
             fst (connect this) = Throw (Error (Error e))) /\
  (fst (client_connect (_client this)) = Ok tt -> fst (connect this) = Ok tt) /\
  snd (connect this) = set__client (snd (client_connect (_client this))) this.
Proof.
  rewrite connect_outcome.
  destruct (client_connect (_client this)) as [[[]|e'] c]; cbn [fst snd];
    repeat split; intros; congruence.
Qed.

Lemma connect_wraps_the_error_twice_witness :
  fst (connect refused_instance)
  = Throw (Error (Error (DriverError (lit "ECONNREFUSED")))).
Proof.
  refine (proj1 (connect_wraps_the_error_twice (D := refusingDriver) refused_instance)
            _ _).
  reflexivity.
Defined.

(** X10.  The setter of [database] stores what the driver's [db] returns and
    leaves the selected collection alone, so a collection of the database
    selected before stays selected.  When [db] throws, the error is wrapped
    once and the instance is unchanged. *)
Theorem set_database_keeps_the_collection {D : Driver}
    (databaseName : jsstring) (this : MongoManager) :
  _collection (snd (set_database databaseName this)) = _collection this /\
  (forall d, client_db (_client this) databaseName = Ok d ->
             set_database databaseName this = (Ok tt, set__database d this)) /\
  (forall e, client_db (_client this) databaseName = Throw e ->
             set_database databaseName this = (Throw (Error e), this)).
Proof.
  rewrite set_database_outcome.
  destruct (client_db (_client this) databaseName) as [d|e];
    repeat split; intros; congruence.
Qed.

Lemma set_database_keeps_the_collection_witness :
  set_database (D := flagDriver) (lit "other") selected_instance
  = (Ok tt, set__database (D := flagDriver) (lit "other") selected_instance) /\
  _collection (set__database (D := flagDriver) (lit "other") selected_instance)
  = Some (lit "app", lit "users").
Proof.
  split; [|reflexivity].
  refine (proj1 (proj2 (set_database_keeps_the_collection
                          (D := flagDriver) (lit "other") selected_instance))
            (lit "other") _).
  reflexivity.
Defined.

(** X11.  Selecting a database and then a collection, when the driver
    provides both, makes the getters return exactly these two; the client
    and the URI are as before. *)
Theorem select_then_read {D : Driver}
    (databaseName collectionName : jsstring) (this : MongoManager)
    (d : Db) (c : Collection) :
  client_db (_client this) databaseName = Ok d ->
  db_collection d collectionName = Ok c ->
  exists this1 this2,
    set_database databaseName this = (Ok tt, this1) /\
    set_collection collectionName this1 = (Ok tt, this2) /\
    get_database this2 = (Ok (Some d), this2) /\
    get_collection this2 = (Ok (Some c), this2) /\
    get_client this2 = (Ok (_client this), this2) /\
    connectionUri this2 = connectionUri this.
Proof.
  intros Hd Hc.
  exists (set__database d this), (set__collection c (set__database d this)).
  split; [rewrite set_database_outcome; now rewrite Hd|].
  split; [|now repeat split].
  unfold set_collection, try_catch. cbn [set__database _database].
  now rewrite Hc.
Qed.

Lemma select_then_read_witness :
  exists this1 this2,
    set_database (D := flagDriver) (lit "app") fresh_instance = (Ok tt, this1) /\
    set_collection (D := flagDriver) (lit "users") this1 = (Ok tt, this2) /\
    get_database this2 = (Ok (Some (lit "app")), this2) /\
    get_collection this2 = (Ok (Some (lit "app", lit "users")), this2) /\
    get_client this2 = (Ok (_client fresh_instance), this2) /\
    connectionUri this2 = connectionUri fresh_instance.
Proof.
  refine (select_then_read (D := flagDriver) (lit "app") (lit "users") fresh_instance
            (lit "app") (lit "app", lit "users") _ _); reflexivity.
Defined.

(** ** Updating the connection string *)

(** X12.  When the old client closes and the new one connects,
    [updateConnectionString] appends the text of its argument to the URI,
    replaces the client by a connected one built from the new URI, and
    keeps the selected database and collection, which still belong to the
    client that was closed. *)
Theorem updateConnectionString_appends {D : Driver} {W : AwaitedClose D}
    (options : value) (this : MongoManager) :
  fst (await_client_close (_client this)) = Ok tt ->
  fst (client_connect (MongoClient (connectionUri this ++ ToString options))) = Ok tt ->
  updateConnectionString options this
  = (Ok tt,
     {| connectionUri := connectionUri this ++ ToString options;
        _client := snd (client_connect
                          (MongoClient (connectionUri this ++ ToString options)));
        _database := _database this;
        _collection := _collection this |}).
Proof.
  intros Hclose Hconnect. rewrite updateConnectionString_outcome.
  destruct (await_client_close (_client this)) as [[[]|e] c]; [|discriminate].
  cbv zeta.
  destruct (client_connect (MongoClient (connectionUri this ++ ToString options)))
    as [[[]|e] c']; [reflexivity | discriminate].
Qed.

Lemma updateConnectionString_appends_witness :
  updateConnectionString (D := flagDriver) (W := flagAwaitedClose)
    (str "&w=majority") selected_instance
  = (Ok tt,
     set__client (D := flagDriver) true
       (set_connectionUri (D := flagDriver) (lit "mongodb://bob@h/db1&w=majority")
          selected_instance)).
Proof.
  refine (updateConnectionString_appends (D := flagDriver) (W := flagAwaitedClose)
            (str "&w=majority") selected_instance _ _); reflexivity.
Defined.

(** X13.  When closing the old client fails, [updateConnectionString] throws
    that error wrapped once; the URI is not extended and no new client is
    made. *)
Theorem updateConnectionString_close_fails {D : Driver} {W : AwaitedClose D}
    (options : value) (this : MongoManager) (e : exn) :
  fst (await_client_close (_client this)) = Throw e ->
  updateConnectionString options this
  = (Throw (Error e), set__client (snd (await_client_close (_client this))) this).
Proof.
  intros Hclose. rewrite updateConnectionString_outcome.
  destruct (await_client_close (_client this)) as [[[]|e'] c]; [discriminate|].
  cbn [fst] in Hclose. injection Hclose as ->. reflexivity.
Qed.

Lemma updateConnectionString_close_fails_witness :
  updateConnectionString (D := flagDriver) (W := rejectedClose)
    (str "&w=majority") selected_instance
  = (Throw (Error (DriverError (lit "close failed"))), selected_instance).
Proof.
  refine (updateConnectionString_close_fails (D := flagDriver) (W := rejectedClose)
            (str "&w=majority") selected_instance _ _).
  reflexivity.
Defined.

(** X14.  When the new client cannot connect, [updateConnectionString]
    throws the driver's error wrapped four times (twice by [connect], once
    by the handler of its promise, once by the outer [catch]), and nothing
    is rolled back: the URI stays extended and the new, unconnected client
    stays in place. *)
Theorem updateConnectionString_connect_fails {D : Driver} {W : AwaitedClose D}
    (options : value) (this : MongoManager) (e : exn) :
  fst (await_client_close (_client this)) = Ok tt ->
  fst (client_connect (MongoClient (connectionUri this ++ ToString options))) = Throw e ->
  updateConnectionString options this
  = (Throw (Error (Error (Error (Error e)))),
     {| connectionUri := connectionUri this ++ ToString options;
        _client := snd (client_connect
                          (MongoClient (connectionUri this ++ ToString options)));
        _database := _database this;
        _collection := _collection this |}).
Proof.
  intros Hclose Hconnect. rewrite updateConnectionString_outcome.
  destruct (await_client_close (_client this)) as [[[]|e'] c]; [|discriminate].
  cbv zeta.
  destruct (client_connect (MongoClient (connectionUri this ++ ToString options)))
    as [[[]|e'] c']; [discriminate|].
  cbn [fst] in Hconnect. injection Hconnect as ->. reflexivity.
Qed.

Lemma updateConnectionString_connect_fails_witness :
  updateConnectionString (D := refusingDriver) (W := refusingAwaitedClose)
    (str "&w=majority") refused_instance
  = (Throw (Error (Error (Error (Error (DriverError (lit "ECONNREFUSED")))))),
     set_connectionUri (D := refusingDriver) (lit "mongodb://bob@h/db1&w=majority")
       refused_instance).
Proof.
  refine (updateConnectionString_connect_fails
            (D := refusingDriver) (W := refusingAwaitedClose)
            (str "&w=majority") refused_instance _ _ _); reflexivity.
Defined.

Lemma updateConnectionString_step {D : Driver} {W : AwaitedClose D}
    (options : value) (this : MongoManager) :
  (connectionUri (snd (updateConnectionString options this)) = connectionUri this
   \/ connectionUri (snd (updateConnectionString options this))
      = connectionUri this ++ ToString options) /\
  _database (snd (updateConnectionString options this)) = _database this /\
  _collection (snd (updateConnectionString options this)) = _collection this.
Proof.
  rewrite updateConnectionString_outcome.
  destruct (await_client_close (_client this)) as [[[]|e] c]; [|now repeat split; left].
  cbv zeta.
  destruct (client_connect (MongoClient (connectionUri this ++ ToString options)))
    as [[[]|e] c']; (split; [now right | now split]).
Qed.

(** X15.  Whatever the outcomes, a series of calls of
    [updateConnectionString] only ever extends the URI, and never touches
    the selected database or collection.  When every close and every
    connect succeeds, the URI ends up with the texts of all arguments
    appended in the order of the calls. *)
Theorem updateConnectionString_only_extends {D : Driver} {W : AwaitedClose D}
    (updates : list value) (this : MongoManager) :
  (exists extension,
     connectionUri
       (fold_left (fun m options => snd (updateConnectionString options m)) updates this)
     = connectionUri this ++ extension) /\
  _database
    (fold_left (fun m options => snd (updateConnectionString options m)) updates this)
  = _database this /\
  _collection
    (fold_left (fun m options => snd (updateConnectionString options m)) updates this)
  = _collection this /\
  ((forall c, fst (await_client_close c) = Ok tt) ->
   (forall c, fst (client_connect c) = Ok tt) ->
   connectionUri
     (fold_left (fun m options => snd (updateConnectionString options m)) updates this)
   = connectionUri this ++ List.concat (map ToString updates)).
Proof.
  revert this. induction updates as [|options updates IH]; intros this; cbn [fold_left].
  - split; [exists []; now rewrite app_nil_r|].
    repeat split. intros _ _. cbn. now rewrite app_nil_r.
  - destruct (IH (snd (updateConnectionString options this))) as [[ext E] [Hd [Hc Hall]]].
    destruct (updateConnectionString_step options this) as [Hu [Hd' Hc']].
    split; [|split; [congruence|split; [congruence|]]].
    + destruct Hu as [Hu|Hu]; rewrite E, Hu.
      * now exists ext.
      * exists (ToString options ++ ext). now rewrite <- app_assoc.
    + intros Hclose Hconnect. rewrite (Hall Hclose Hconnect).
      assert (Eu : connectionUri (snd (updateConnectionString options this))
                   = connectionUri this ++ ToString options).
      { rewrite updateConnectionString_outcome.
        specialize (Hclose (_client this)).
        specialize (Hconnect (MongoClient (connectionUri this ++ ToString options))).
        destruct (await_client_close (_client this)) as [[[]|e] c]; [|discriminate].
        cbv zeta.
        destruct (client_connect (MongoClient (connectionUri this ++ ToString options)))
          as [[[]|e] c']; [reflexivity | discriminate]. }
      rewrite Eu. cbn [map List.concat]. now rewrite <- app_assoc.
Qed.

Lemma updateConnectionString_only_extends_witness :
  connectionUri
    (fold_left
       (fun m options =>
          snd (updateConnectionString (D := flagDriver) (W := flagAwaitedClose) options m))
       [str "&w=majority"; str "&retryWrites=true"] selected_instance)
  = lit "mongodb://bob@h/db1" ++ lit "&w=majority&retryWrites=true".
Proof.
  refine (proj2 (proj2 (proj2 (updateConnectionString_only_extends
                   (D := flagDriver) (W := flagAwaitedClose)
                   [str "&w=majority"; str "&retryWrites=true"] selected_instance)))
            _ _); intros c; reflexivity.
Defined.
